(** * Allusion: selection stores and view-state derivations

    A shallow embedding of the parts of the Allusion front end that carry
    logic: the [UiStore] selection actions, the slide-mode navigation and
    zoomable image, the toolbar button, and the gallery item. *)

From Stdlib Require Import ZArith List String Ascii Bool Lia Permutation.
From Stdlib Require Import Floats.SpecFloat.
Import ListNotations.

Local Open Scope string_scope.
Local Open Scope list_scope.

(** ** Entities *)

(** [entities/ID]: identifiers are strings. *)
Definition ID := string.

(** [entities/File]: the fields of [ClientFile] that the stores read. *)
Module File.
Record ClientFile := { id : ID; tags : list ID }.
End File.

(** [entities/Tag]: the fields of [ClientTag] that the front end reads;
    [subTags] holds the ids of the sub-tags. *)
Module Tag.
Record ClientTag := { id : ID; subTags : list ID }.
End Tag.

(** ** JavaScript arrays and mobx observable arrays

    Only the operations the stores call.  [remove] is the mobx
    observable-array method: it deletes the first element equal to the value
    and leaves the array alone when there is none. *)
Module Arr.

Definition push {A} (x : A) (l : list A) : list A := l ++ [x].

Fixpoint remove (x : ID) (l : list ID) : list ID :=
  match l with
  | [] => []
  | y :: r => if String.eqb y x then r else y :: remove x r
  end.

Definition clear {A} (l : list A) : list A := [].

Definition includes (l : list ID) (x : ID) : bool :=
  existsb (fun y => String.eqb y x) l.

Definition some {A} (p : A -> bool) (l : list A) : bool := existsb p l.

End Arr.

(** ** Actions: state passing with exceptions

    A mobx action mutates the store and either returns or throws; a throw
    does not roll back the mutations made before it. *)
Inductive Exn := TypeError.

Inductive Outcome (S A : Type) :=
| Returned (a : A) (s : S)
| Thrown (e : Exn) (s : S).
Arguments Returned {S A} a s.
Arguments Thrown {S A} e s.

Definition Action (S A : Type) := S -> Outcome S A.

Definition ret {S A} (a : A) : Action S A := fun s => Returned a s.

Definition bind {S A B} (m : Action S A) (k : A -> Action S B) : Action S B :=
  fun s => match m s with
           | Returned a s' => k a s'
           | Thrown e s' => Thrown e s'
           end.

Definition throw {S A} (e : Exn) : Action S A := fun s => Thrown e s.
Definition gets {S A} (f : S -> A) : Action S A := fun s => Returned (f s) s.
Definition modify {S} (f : S -> S) : Action S unit := fun s => Returned tt (f s).

Declare Scope action_scope.
Delimit Scope action_scope with action.
Notation "x <- m ;; k" := (bind m (fun x => k))
  (at level 61, m at next level, right associativity) : action_scope.
Notation "m ;; k" := (bind m (fun _ => k))
  (at level 61, right associativity) : action_scope.

(** [Array.prototype.forEach] with a callback that acts on the store. *)
Fixpoint forEach {S A} (l : list A) (f : A -> Action S unit) : Action S unit :=
  match l with
  | [] => ret tt
  | x :: r => bind (f x) (fun _ => forEach r f)
  end.

(** ** UiStore (selection store) *)
Module UiStore.
Import File.
Local Open Scope action_scope.

(** The observable state the selection actions touch: the two selections of
    the UI store, [rootStore.fileStore.fileList], and the arguments of the
    calls made to [rootStore.fileStore.fetchFilesByTagIDs], oldest first.
    The body of [fetchFilesByTagIDs] belongs to the file store and is not
    part of the UI store; a call is recorded with the contents the tag
    selection has when the call is made. *)
Record Store := {
  fileSelection : list ID;
  tagSelection : list ID;
  fileList : list ClientFile;
  fetchCalls : list (list ID)
}.

Definition set_fileSelection (f : list ID -> list ID) (s : Store) : Store :=
  {| fileSelection := f (fileSelection s); tagSelection := tagSelection s;
     fileList := fileList s; fetchCalls := fetchCalls s |}.

Definition set_tagSelection (f : list ID -> list ID) (s : Store) : Store :=
  {| fileSelection := fileSelection s; tagSelection := f (tagSelection s);
     fileList := fileList s; fetchCalls := fetchCalls s |}.

Definition fetchFilesByTagIDs (ids : list ID) : Action Store unit :=
  modify (fun s =>
    {| fileSelection := fileSelection s; tagSelection := tagSelection s;
       fileList := fileList s; fetchCalls := fetchCalls s ++ [ids] |}).

(** [fileList.find((f) => f.id === id)]; [None] is [undefined]. *)
Definition findFile (i : ID) (l : list ClientFile) : option ClientFile :=
  find (fun f => String.eqb (id f) i) l.

(** The computed [clientFileSelection]; the cast to [ClientFile[]] does not
    remove an [undefined] entry. *)
Definition clientFileSelection (s : Store) : list (option ClientFile) :=
  map (fun i => findFile i (fileList s)) (fileSelection s).

Definition selectFile (file : ClientFile) : Action Store unit :=
  modify (set_fileSelection (Arr.push (id file))).

Definition deselectFile (file : ClientFile) : Action Store unit :=
  modify (set_fileSelection (Arr.remove (id file))).

Definition clearFileSelection : Action Store unit :=
  modify (set_fileSelection Arr.clear).

(** Whether a file carries a tag of the tag selection:
    [file.tags.some((t) => this.tagSelection.includes(t))]. *)
Definition isTagged (sel : list ID) (file : ClientFile) : bool :=
  Arr.some (fun t => Arr.includes sel t) (tags file).

(** The callback of [cleanFileSelection]; reading [file.tags] of an
    [undefined] entry throws. *)
Definition deselectIfUntagged (file : option ClientFile) : Action Store unit :=
  match file with
  | None => throw TypeError
  | Some f =>
      sel <- gets tagSelection ;;
      if negb (isTagged sel f) then deselectFile f else ret tt
  end.

(** [cleanFileSelection]: the array of client files is computed once, then
    visited. *)
Definition cleanFileSelection : Action Store unit :=
  files <- gets clientFileSelection ;;
  forEach files deselectIfUntagged.

Definition selectTag (tag : Tag.ClientTag) : Action Store unit :=
  modify (set_tagSelection (Arr.push (Tag.id tag))) ;;
  cleanFileSelection ;;
  sel <- gets tagSelection ;;
  fetchFilesByTagIDs sel.

Definition deselectTag (tag : Tag.ClientTag) : Action Store unit :=
  modify (set_tagSelection (Arr.remove (Tag.id tag))) ;;
  cleanFileSelection ;;
  sel <- gets tagSelection ;;
  fetchFilesByTagIDs sel.

Definition clearTagSelection : Action Store unit :=
  modify (set_tagSelection Arr.clear) ;;
  sel <- gets tagSelection ;;
  fetchFilesByTagIDs sel.

(** A sample store: three files, two of them selected twice over. *)
Definition sampleFiles : list ClientFile :=
  [ {| id := "f1"; tags := ["t1"; "t2"] |};
    {| id := "f2"; tags := ["t3"] |};
    {| id := "f3"; tags := [] |} ].

Definition sampleStore : Store :=
  {| fileSelection := ["f1"; "f2"; "f3"; "f2"];
     tagSelection := ["t3"];
     fileList := sampleFiles;
     fetchCalls := [] |}.

Definition sampleTag : Tag.ClientTag := {| Tag.id := "t1"; Tag.subTags := [] |}.

(** Whether an id resolves to a file that carries no tag of [sel]. *)
Definition untagged (sel : list ID) (files : list ClientFile) (i : ID) : bool :=
  match findFile i files with
  | Some f => negb (isTagged sel f)
  | None => false
  end.

(** What the loop of [cleanFileSelection] leaves of a selection [acc] after
    visiting the files of the ids [l], as a function on lists. *)
Definition cleanIds (sel : list ID) (files : list ClientFile)
  (l acc : list ID) : list ID :=
  fold_left (fun a i => if untagged sel files i then Arr.remove i a else a) l acc.

(** The two properties of a store that the selection invariant speaks of. *)
Definition selectionResolves (s : Store) : Prop :=
  forall i, In i (fileSelection s) ->
    exists f, In f (fileList s) /\ id f = i.

Definition selectionTagged (s : Store) : Prop :=
  forall i, In i (fileSelection s) ->
    exists f, findFile i (fileList s) = Some f /\
      exists t, In t (tags f) /\ In t (tagSelection s).

(** The same, said of the files of the list rather than of the ids. *)
Definition selectedFilesTagged (s : Store) : Prop :=
  forall f, In f (fileList s) -> In (id f) (fileSelection s) ->
    exists t, In t (tags f) /\ In t (tagSelection s).

End UiStore.

(** ** Facts about arrays *)
Module ArrFacts.

Lemma includes_In l x : Arr.includes l x = true <-> In x l.
Proof.
  unfold Arr.includes. rewrite existsb_exists. split.
  - intros [y [Hy He]]. apply String.eqb_eq in He. now subst.
  - intros H. exists x. split; [assumption | apply String.eqb_refl].
Qed.

Lemma remove_count x l y :
  count_occ string_dec (Arr.remove x l) y =
  if string_dec x y then pred (count_occ string_dec l y)
  else count_occ string_dec l y.
Proof.
  induction l as [|z r IH]; simpl.
  - now destruct (string_dec x y).
  - destruct (String.eqb_spec z x) as [E|N].
    + subst z. destruct (string_dec x y); reflexivity.
    + simpl. destruct (string_dec z y) as [Ezy|Nzy].
      * destruct (string_dec x y); [congruence | now rewrite IH; destruct (string_dec x y)].
      * exact IH.
Qed.

Lemma remove_incl x l y : In y (Arr.remove x l) -> In y l.
Proof.
  induction l as [|z r IH]; simpl; [tauto|].
  destruct (String.eqb z x); simpl; tauto.
Qed.

Lemma remove_push x l : Permutation (Arr.remove x (Arr.push x l)) l.
Proof.
  unfold Arr.push. induction l as [|z r IH]; simpl.
  - now rewrite String.eqb_refl.
  - destruct (String.eqb_spec z x) as [E|N].
    + subst z. symmetry. apply Permutation_cons_append.
    + now constructor.
Qed.

End ArrFacts.

(** ** The selection store: theorems *)
Module UiStoreFacts.
Import File UiStore.
Local Open Scope action_scope.

Lemma findFile_Some i l f : findFile i l = Some f -> In f l /\ id f = i.
Proof.
  unfold findFile. intros H. apply find_some in H.
  destruct H as [Hin He]. apply String.eqb_eq in He. now split.
Qed.

Lemma findFile_resolves i l :
  (exists f, In f l /\ id f = i) -> exists f, findFile i l = Some f.
Proof.
  intros [f [Hin He]]. unfold findFile.
  destruct (find (fun g => String.eqb (id g) i) l) as [g|] eqn:E.
  - now exists g.
  - exfalso. apply (find_none _ _ E) in Hin.
    rewrite He, String.eqb_refl in Hin. discriminate.
Qed.

(** With unique ids, a file of the list is the one its id resolves to. *)
Lemma findFile_unique l f :
  NoDup (map id l) -> In f l -> findFile (id f) l = Some f.
Proof.
  unfold findFile. induction l as [|g r IH]; simpl; [tauto|].
  intros Hnd [E|Hin].
  - subst g. now rewrite String.eqb_refl.
  - inversion Hnd as [|? ? Hni Hnd']; subst.
    destruct (String.eqb_spec (id g) (id f)) as [E|N].
    + exfalso. apply Hni. rewrite E. now apply in_map.
    + now apply IH.
Qed.

Lemma cleanIds_incl sel files l acc i :
  In i (cleanIds sel files l acc) -> In i acc.
Proof.
  unfold cleanIds. revert acc.
  induction l as [|j r IH]; simpl; intros acc H; [assumption|].
  apply IH in H. destruct (untagged sel files j); [|assumption].
  now apply ArrFacts.remove_incl in H.
Qed.

Lemma cleanIds_count sel files l acc i :
  untagged sel files i = true ->
  count_occ string_dec (cleanIds sel files l acc) i =
  count_occ string_dec acc i - count_occ string_dec l i.
Proof.
  intros Hbad. unfold cleanIds. revert acc.
  induction l as [|j r IH]; simpl; intros acc; [lia|].
  rewrite IH. destruct (string_dec j i) as [E|N].
  - subst j. rewrite Hbad, ArrFacts.remove_count.
    destruct (string_dec i i); [lia | congruence].
  - destruct (untagged sel files j); [|reflexivity].
    rewrite ArrFacts.remove_count. destruct (string_dec j i); [congruence | reflexivity].
Qed.

(** Visiting a selection's own ids leaves no id of an untagged file. *)
Lemma cleanIds_self sel files l i :
  In i (cleanIds sel files l l) -> untagged sel files i = false.
Proof.
  intros Hin. destruct (untagged sel files i) eqn:E; [|reflexivity].
  exfalso. apply (count_occ_In string_dec) in Hin.
  rewrite (cleanIds_count _ _ _ _ _ E) in Hin. lia.
Qed.

(** The loop of [cleanFileSelection] over the files the ids [l] resolve to. *)
Lemma forEach_clean l : forall s,
  (forall i, In i l -> exists f, findFile i (fileList s) = Some f) ->
  forEach (map (fun i => findFile i (fileList s)) l) deselectIfUntagged s
  = Returned tt
      (set_fileSelection (cleanIds (tagSelection s) (fileList s) l) s).
Proof.
  induction l as [|j r IH]; intros s Hres.
  - destruct s; reflexivity.
  - destruct (Hres j (or_introl eq_refl)) as [f Hf].
    assert (Hid : id f = j) by (apply findFile_Some in Hf; tauto).
    simpl. unfold bind at 1, deselectIfUntagged at 1. rewrite Hf.
    unfold bind at 1, gets at 1.
    assert (Hstep : forall s0, fileList s0 = fileList s ->
              tagSelection s0 = tagSelection s ->
              (forall i, In i r -> exists g, findFile i (fileList s0) = Some g)).
    { intros s0 E _ i Hi. rewrite E. apply Hres. now right. }
    unfold cleanIds. simpl. unfold untagged at 2. rewrite Hf.
    destruct (negb (isTagged (tagSelection s) f)).
    + unfold deselectFile, modify. rewrite Hid.
      specialize (IH (set_fileSelection (Arr.remove j) s)
                     (Hstep _ eq_refl eq_refl)).
      simpl in IH. rewrite IH. reflexivity.
    + unfold ret at 1. rewrite (IH s (Hstep s eq_refl eq_refl)). reflexivity.
Qed.

Lemma cleanFileSelection_run s :
  selectionResolves s ->
  cleanFileSelection s =
  Returned tt
    (set_fileSelection
       (fun _ => cleanIds (tagSelection s) (fileList s)
                   (fileSelection s) (fileSelection s)) s).
Proof.
  intros Hres. unfold cleanFileSelection, bind, gets, clientFileSelection.
  rewrite forEach_clean; [reflexivity|].
  intros i Hi. apply findFile_resolves. now apply Hres.
Qed.

Lemma cleanFileSelection_tagged s :
  selectionResolves s ->
  exists s', cleanFileSelection s = Returned tt s' /\
    selectionTagged s' /\
    tagSelection s' = tagSelection s /\ fileList s' = fileList s /\
    fetchCalls s' = fetchCalls s /\
    incl (fileSelection s') (fileSelection s).
Proof.
  intros Hres. eexists. split; [now apply cleanFileSelection_run|].
  simpl. repeat split; try reflexivity.
  - intros i Hi. simpl in Hi.
    pose proof (cleanIds_self _ _ _ _ Hi) as Hgood.
    apply cleanIds_incl in Hi.
    destruct (findFile_resolves _ _ (Hres i Hi)) as [f Hf].
    exists f. split; [exact Hf|].
    unfold untagged in Hgood. rewrite Hf in Hgood.
    apply negb_false_iff in Hgood. unfold isTagged, Arr.some in Hgood.
    apply existsb_exists in Hgood. destruct Hgood as [t [Ht Hinc]].
    exists t. split; [assumption | now apply ArrFacts.includes_In].
  - intros i Hi. now apply cleanIds_incl in Hi.
Qed.

Lemma fetch_frames s0 :
  selectionTagged s0 ->
  exists s', (sel <- gets tagSelection ;; fetchFilesByTagIDs sel) s0
             = Returned tt s' /\
    selectionTagged s' /\
    fileSelection s' = fileSelection s0 /\ tagSelection s' = tagSelection s0 /\
    fileList s' = fileList s0 /\
    fetchCalls s' = fetchCalls s0 ++ [tagSelection s0].
Proof.
  intros H. eexists. split; [reflexivity|]. simpl. repeat split. exact H.
Qed.

(** After changing the tag selection by [f], cleaning and refetching. *)
Lemma retag_clean (f : list ID -> list ID) s :
  selectionResolves s ->
  exists s',
    (modify (set_tagSelection f) ;; cleanFileSelection ;;
     sel <- gets tagSelection ;; fetchFilesByTagIDs sel) s = Returned tt s' /\
    selectionTagged s' /\
    tagSelection s' = f (tagSelection s) /\
    fileList s' = fileList s /\
    incl (fileSelection s') (fileSelection s) /\
    fetchCalls s' = fetchCalls s ++ [f (tagSelection s)].
Proof.
  intros Hres.
  destruct (cleanFileSelection_tagged (set_tagSelection f s) Hres)
    as [s1 [Hrun [Htag [Hts [Hfl [Hfc Hincl]]]]]].
  destruct (fetch_frames s1 Htag)
    as [s2 [Hrun2 [Htag2 [Hfs2 [Hts2 [Hfl2 Hfc2]]]]]].
  exists s2. split.
  - unfold bind at 1, modify at 1. unfold bind at 1. rewrite Hrun. exact Hrun2.
  - simpl in Hts, Hfl, Hfc, Hincl.
    split; [exact Htag2|]. split; [congruence|]. split; [congruence|].
    split; [now rewrite Hfs2|]. now rewrite Hfc2, Hfc, Hts.
Qed.

Lemma selectionTagged_files s :
  selectionTagged s -> NoDup (map id (fileList s)) -> selectedFilesTagged s.
Proof.
  intros Htag Hnd f Hin Hsel. destruct (Htag _ Hsel) as [g [Hg Ht]].
  rewrite (findFile_unique _ _ Hnd Hin) in Hg. now inversion Hg; subst.
Qed.

(** C1. In a store whose selected ids each refer to a file of the file list,
    [selectTag] and [deselectTag] complete, and afterwards every id left in
    the file selection resolves to a file that carries at least one tag of
    the current tag selection; when the ids of the file list are unique this
    holds of every file of the list whose id is still selected. *)
Theorem selectTag_deselectTag_clean (s : Store) (tag : Tag.ClientTag) :
  selectionResolves s ->
  (exists s', selectTag tag s = Returned tt s' /\
     tagSelection s' = Arr.push (Tag.id tag) (tagSelection s) /\
     selectionTagged s' /\
     (NoDup (map id (fileList s')) -> selectedFilesTagged s')) /\
  (exists s', deselectTag tag s = Returned tt s' /\
     tagSelection s' = Arr.remove (Tag.id tag) (tagSelection s) /\
     selectionTagged s' /\
     (NoDup (map id (fileList s')) -> selectedFilesTagged s')).
Proof.
  intros Hres. split.
  - destruct (retag_clean (Arr.push (Tag.id tag)) s Hres)
      as [s' [Hrun [Ht [Hsel _]]]].
    exists s'. repeat split; try assumption. now apply selectionTagged_files.
  - destruct (retag_clean (Arr.remove (Tag.id tag)) s Hres)
      as [s' [Hrun [Ht [Hsel _]]]].
    exists s'. repeat split; try assumption. now apply selectionTagged_files.
Qed.

Lemma sampleStore_resolves : selectionResolves sampleStore.
Proof.
  intros i Hi. simpl in Hi.
  destruct Hi as [<- | [<- | [<- | [<- | []]]]]; eexists;
    (eapply findFile_Some; reflexivity).
Qed.

Lemma selectTag_deselectTag_clean_witness :
  selectionResolves sampleStore /\
  exists s', selectTag sampleTag sampleStore = Returned tt s' /\
    fileSelection s' = ["f1"; "f2"; "f2"] /\ selectionTagged s'.
Proof.
  split; [exact sampleStore_resolves|].
  destruct (selectTag_deselectTag_clean sampleStore sampleTag sampleStore_resolves)
    as [[s' [Hrun [_ [Htag _]]]] _].
  exists s'. split; [exact Hrun|]. split; [|exact Htag].
  vm_compute in Hrun. inversion Hrun. reflexivity.
Defined.

(** A selected id that refers to no file makes [cleanFileSelection] throw,
    after the tag selection has been changed and before any fetch. *)
Example selectTag_unresolved_throws :
  selectTag sampleTag
    {| fileSelection := ["gone"]; tagSelection := [];
       fileList := sampleFiles; fetchCalls := [] |}
  = Thrown TypeError
      {| fileSelection := ["gone"]; tagSelection := ["t1"];
         fileList := sampleFiles; fetchCalls := [] |}.
Proof. reflexivity. Qed.

(** C9. [selectFile f] followed by [deselectFile f] leaves the file
    selection with the same multiset of ids: [selectFile] appends [f.id]
    whether or not it is already selected, and [deselectFile] then removes
    exactly one occurrence of it.  Nothing else of the store changes. *)
Theorem selectFile_deselectFile_multiset (s : Store) (f : ClientFile) :
  exists s1 s2,
    selectFile f s = Returned tt s1 /\
    deselectFile f s1 = Returned tt s2 /\
    (selectFile f ;; deselectFile f) s = Returned tt s2 /\
    fileSelection s1 = fileSelection s ++ [id f] /\
    count_occ string_dec (fileSelection s2) (id f) =
      pred (count_occ string_dec (fileSelection s1) (id f)) /\
    Permutation (fileSelection s2) (fileSelection s) /\
    (forall i, count_occ string_dec (fileSelection s2) i =
               count_occ string_dec (fileSelection s) i) /\
    tagSelection s2 = tagSelection s /\ fileList s2 = fileList s /\
    fetchCalls s2 = fetchCalls s.
Proof.
  eexists. eexists. split; [reflexivity|]. split; [reflexivity|].
  split; [reflexivity|]. simpl.
  pose proof (ArrFacts.remove_push (id f) (fileSelection s)) as Hp.
  repeat split.
  - rewrite ArrFacts.remove_count. destruct (string_dec (id f) (id f)); congruence.
  - exact Hp.
  - intros i. now apply Permutation_count_occ.
Qed.

(** C10. [clearTagSelection] empties the tag selection and calls
    [fetchFilesByTagIDs] with the emptied selection, leaving the file
    selection as it was; [clearFileSelection] empties the file selection,
    leaves the tag selection as it was and makes no fetch call. *)
Theorem clear_selections_frame (s : Store) :
  (exists s', clearTagSelection s = Returned tt s' /\
     tagSelection s' = [] /\
     fetchCalls s' = fetchCalls s ++ [[]] /\
     fileSelection s' = fileSelection s /\
     fileList s' = fileList s) /\
  (exists s', clearFileSelection s = Returned tt s' /\
     fileSelection s' = [] /\
     tagSelection s' = tagSelection s /\
     fetchCalls s' = fetchCalls s /\
     fileList s' = fileList s).
Proof.
  split; eexists; (split; [reflexivity|]); simpl; repeat split.
Qed.

(** [clearTagSelection] can leave selected a file that carries no selected
    tag, which [selectTag] and [deselectTag] never do. *)
Example clearTagSelection_keeps_untagged :
  exists s', clearTagSelection sampleStore = Returned tt s' /\
    fileSelection s' = ["f1"; "f2"; "f3"; "f2"] /\ ~ selectionTagged s'.
Proof.
  eexists. split; [reflexivity|]. split; [reflexivity|].
  intros H. destruct (H "f1" (or_introl eq_refl)) as [f [_ [t [_ []]]]].
Qed.

End UiStoreFacts.

(** ** JavaScript numbers

    A JavaScript number is an IEEE 754 binary64 value. *)
Module Js.
Local Open Scope Z_scope.

Definition number := spec_float.
Definition prec : Z := 53.
Definition emax : Z := 1024.

Definition ofZ (n : Z) : number := binary_normalize prec emax n 0 false.

(** The operator [/]. *)
Definition div (x y : number) : number := SFdiv prec emax x y.

(** The literal [0.1]: the binary64 value nearest to one tenth. *)
Definition tenth : number := S754_finite false 7205759403792794 (-56).

Definition isNaN (x : number) : bool :=
  match x with S754_nan => true | _ => false end.

(** [Math.min] of two numbers: [NaN] when either is, and [-0] below [+0]. *)
Definition Math_min (a b : number) : number :=
  match SFcompare a b with
  | None => S754_nan
  | Some Lt => a
  | Some Gt => b
  | Some Eq =>
      match a, b with
      | S754_zero sa, S754_zero sb => S754_zero (sa || sb)
      | _, _ => a
      end
  end.

(** [x <= y] and [x > y] on numbers; both are false when either is [NaN]. *)
Definition le (x y : number) : bool := SFleb x y.
Definition gt (x y : number) : bool := SFltb y x.

(** A finite number above zero. *)
Definition isPositiveFinite (x : number) : bool :=
  match x with S754_finite false _ _ => true | _ => false end.

(** The position of a number other than [NaN] in the order of the numbers,
    as a triple compared lexicographically. *)
Definition key (x : number) : Z * Z * Z :=
  match x with
  | S754_zero _ => (0, 0, 0)
  | S754_infinity false => (2, 0, 0)
  | S754_infinity true => (-2, 0, 0)
  | S754_finite false m e => (1, e, Zpos m)
  | S754_finite true m e => (-1, - e, Zneg m)
  | S754_nan => (0, 0, 0)
  end.

Definition lexle (k1 k2 : Z * Z * Z) : Prop :=
  let '(a1, b1, c1) := k1 in
  let '(a2, b2, c2) := k2 in
  a1 < a2 \/ (a1 = a2 /\ (b1 < b2 \/ (b1 = b2 /\ c1 <= c2))).

(** A number, other than [NaN], whose sign bit is [sx]. *)
Definition signed (sx : bool) (x : number) : Prop :=
  match x with
  | S754_nan => False
  | S754_zero s | S754_infinity s | S754_finite s _ _ => s = sx
  end.

End Js.

(** ** Facts about numbers *)
Module JsFacts.
Import Js.
Local Open Scope Z_scope.

Lemma le_key x y :
  isNaN x = false -> isNaN y = false ->
  (le x y = true <-> lexle (key x) (key y)).
Proof.
  unfold le, SFleb.
  destruct x as [sx|sx| |sx mx ex], y as [sy|sy| |sy my ey];
    try discriminate; intros _ _;
    try (destruct sx); try (destruct sy); simpl;
    try (split; [intros; lia | intros; reflexivity]);
    try (split; [intros; discriminate | intros; lia]).
  - change (Pos.compare_cont Eq mx my) with (Pos.compare mx my).
    destruct (Z.compare_spec ex ey), (Pos.compare_spec mx my); simpl;
      split; intros; try reflexivity; try discriminate; lia.
  - change (Pos.compare_cont Eq mx my) with (Pos.compare mx my).
    destruct (Z.compare_spec ex ey), (Pos.compare_spec mx my); simpl;
      split; intros; try reflexivity; try discriminate; lia.
Qed.

Lemma lexle_trans k1 k2 k3 : lexle k1 k2 -> lexle k2 k3 -> lexle k1 k3.
Proof.
  destruct k1 as [[a1 b1] c1], k2 as [[a2 b2] c2], k3 as [[a3 b3] c3].
  unfold lexle. lia.
Qed.

Lemma lexle_refl k : lexle k k.
Proof. destruct k as [[a b] c]. unfold lexle. lia. Qed.

Lemma le_refl x : isNaN x = false -> le x x = true.
Proof. intros H. apply le_key; [assumption..|apply lexle_refl]. Qed.

Lemma le_trans x y z :
  isNaN y = false -> le x y = true -> le y z = true -> le x z = true.
Proof.
  intros Hy Hxy Hyz.
  assert (Hx : isNaN x = false) by (destruct x, y; try reflexivity; discriminate).
  assert (Hz : isNaN z = false) by (destruct y, z; try reflexivity; discriminate).
  apply le_key; try assumption.
  apply (lexle_trans _ (key y)); apply le_key; assumption.
Qed.

Lemma compare_defined x y :
  isNaN x = false -> isNaN y = false -> exists c, SFcompare x y = Some c.
Proof.
  destruct x, y; try discriminate; intros _ _; simpl; eexists; reflexivity.
Qed.

Lemma compare_antisym x y c :
  SFcompare x y = Some c -> SFcompare y x = Some (CompOpp c).
Proof.
  destruct x as [sx|sx| |sx mx ex], y as [sy|sy| |sy my ey]; simpl;
    try discriminate; intros H; inversion H; subst; clear H;
    try (destruct sx); try (destruct sy); try reflexivity;
    rewrite (Z.compare_antisym ex ey), (ZC4 my mx);
    destruct (ex ?= ey); simpl; try reflexivity;
    destruct (Pos.compare_cont Eq mx my); reflexivity.
Qed.

(** [Math.min] of two numbers is a number, below both. *)
Lemma Math_min_le a b :
  isNaN a = false -> isNaN b = false ->
  isNaN (Math_min a b) = false /\
  le (Math_min a b) a = true /\ le (Math_min a b) b = true.
Proof.
  intros Ha Hb. destruct (compare_defined a b Ha Hb) as [c Hc].
  pose proof (compare_antisym _ _ _ Hc) as Hc'.
  unfold Math_min. rewrite Hc. destruct c.
  - destruct a as [sa|sa| |sa ma ea], b as [sb|sb| |sb mb eb];
      try discriminate; repeat split; try reflexivity;
      try (apply le_refl; reflexivity);
      unfold le, SFleb; rewrite Hc; reflexivity.
  - repeat split; [assumption | now apply le_refl |].
    unfold le, SFleb. now rewrite Hc.
  - repeat split; [assumption | | now apply le_refl].
    unfold le, SFleb. now rewrite Hc'.
Qed.

(** [Math.min] returns [NaN] exactly when an argument is [NaN]. *)
Lemma Math_min_NaN a b :
  isNaN (Math_min a b) = isNaN a || isNaN b.
Proof.
  unfold Math_min.
  destruct a as [sa|sa| |sa ma ea], b as [sb|sb| |sb mb eb]; simpl;
    try reflexivity;
    try (destruct sa); try (destruct sb); try reflexivity.
  - destruct (ea ?= eb); try reflexivity. destruct (Pos.compare_cont Eq ma mb); reflexivity.
  - destruct (ea ?= eb); try reflexivity. destruct (Pos.compare_cont Eq ma mb); reflexivity.
Qed.

(** *** Division of positive finite numbers *)


Lemma shr_1_nonneg mrs : 0 <= shr_m mrs -> 0 <= shr_m (shr_1 mrs).
Proof.
  destruct mrs as [m r s]. simpl.
  destruct m as [|p|p]; [| destruct p | ]; simpl; lia.
Qed.

Lemma iter_pos_preserves {A} (P : A -> Prop) (f : A -> A) :
  (forall x, P x -> P (f x)) -> forall n x, P x -> P (iter_pos f n x).
Proof.
  intros Hf. induction n as [n IH|n IH|]; simpl; intros x Hx; auto.
Qed.

Lemma shr_nonneg mrs e n :
  0 <= shr_m mrs -> 0 <= shr_m (fst (shr mrs e n)).
Proof.
  intros H. unfold shr. destruct n; simpl; try assumption.
  apply (iter_pos_preserves (fun r => 0 <= shr_m r)); [apply shr_1_nonneg | assumption].
Qed.

Lemma shr_fexp_nonneg m e l :
  0 <= m -> 0 <= shr_m (fst (shr_fexp prec emax m e l)).
Proof.
  intros H. unfold shr_fexp. apply shr_nonneg.
  destruct l as [|[ | | ]]; exact H.
Qed.

Lemma round_nearest_even_nonneg m l : 0 <= m -> 0 <= round_nearest_even m l.
Proof.
  intros H. unfold round_nearest_even.
  destruct l as [|[ | | ]]; try destruct (Z.even m); lia.
Qed.

(** Rounding a mantissa that is not negative gives a number with the sign
    asked for: zero, finite or infinite, never [NaN]. *)
Lemma binary_round_aux_signed sx mx ex lx :
  0 <= mx -> signed sx (binary_round_aux prec emax sx mx ex lx).
Proof.
  intros H. unfold binary_round_aux.
  pose proof (shr_fexp_nonneg mx ex lx H) as H1.
  destruct (shr_fexp prec emax mx ex lx) as [mrs' e'].
  simpl in H1.
  pose proof (shr_fexp_nonneg _ e' loc_Exact
                (round_nearest_even_nonneg _ (loc_of_shr_record mrs') H1)) as H2.
  destruct (shr_fexp prec emax
              (round_nearest_even (shr_m mrs') (loc_of_shr_record mrs'))
              e' loc_Exact) as [mrs'' e''].
  simpl in H2.
  destruct (shr_m mrs'') as [|p|p].
  - exact eq_refl.
  - destruct (e'' <=? emax - prec); exact eq_refl.
  - lia.
Qed.

Lemma SFdiv_core_nonneg mx ex my ey :
  0 <= fst (fst (SFdiv_core_binary prec emax (Zpos mx) ex (Zpos my) ey)).
Proof.
  unfold SFdiv_core_binary.
  set (s := ex - ey - _).
  set (m' := match s with Z0 => Zpos mx | Zpos _ => Z.shiftl (Zpos mx) s | Zneg _ => 0 end).
  assert (Hm : 0 <= m').
  { subst m'. destruct s; try lia. apply Z.shiftl_nonneg. lia. }
  pose proof (Z_div_mod m' (Zpos my) eq_refl) as Hd.
  destruct (Z.div_eucl m' (Zpos my)) as [q r]. simpl.
  destruct Hd as [Heq Hr]. nia.
Qed.

(** The quotient of two positive finite numbers is a number that is not
    negative. *)
Lemma div_positive x y :
  isPositiveFinite x = true -> isPositiveFinite y = true ->
  signed false (div x y).
Proof.
  destruct x as [| | |[|] mx ex]; try discriminate.
  destruct y as [| | |[|] my ey]; try discriminate.
  intros _ _. unfold div, SFdiv.
  pose proof (SFdiv_core_nonneg mx ex my ey) as H.
  destruct (SFdiv_core_binary prec emax (Zpos mx) ex (Zpos my) ey) as [[mz ez] lz].
  simpl in H. now apply (binary_round_aux_signed false).
Qed.

Lemma signed_number sx x : signed sx x -> isNaN x = false.
Proof. destruct x; simpl; [reflexivity.. | tauto | reflexivity]. Qed.

End JsFacts.

(** ** Slide mode *)
Module SlideMode.
Import Js.
Local Open Scope Z_scope.

(** *** SlideView: stepping through the images *)

(** What the navigation callbacks read and write: [uiStore.firstItem] and
    [fileStore.fileList]. *)
Record Stores := { firstItem : Z; fileList : list File.ClientFile }.

Definition fileCount (s : Stores) : Z := Z.of_nat (List.length (fileList s)).

Section SlideView.

(** [uiStore.setFirstItem] belongs to a revision of the UI store that is not
    among the sources; the callbacks are defined over any such action. *)
Variable setFirstItem : Z -> Stores -> Stores.

Definition decrImgIndex (s : Stores) : Stores :=
  setFirstItem (Z.max 0 (firstItem s - 1)) s.

Definition incrImgIndex (s : Stores) : Stores :=
  setFirstItem (Z.min (firstItem s + 1) (fileCount s - 1)) s.

End SlideView.

(** What the callbacks rely on: an index inside the file list is stored, and
    the file list is left alone. *)
Definition storesIndex (setFirstItem : Z -> Stores -> Stores) : Prop :=
  forall i s, 0 <= i < fileCount s ->
    setFirstItem i s = {| firstItem := i; fileList := fileList s |}.

(** Two actions that do so: plain assignment, and assignment guarded by the
    length of the file list. *)
Definition assignFirstItem (i : Z) (s : Stores) : Stores :=
  {| firstItem := i; fileList := fileList s |}.

Definition guardedFirstItem (i : Z) (s : Stores) : Stores :=
  if i <? fileCount s then {| firstItem := i; fileList := fileList s |} else s.

Definition sampleStores : Stores :=
  {| firstItem := 1;
     fileList := [ {| File.id := "a"; File.tags := [] |};
                   {| File.id := "b"; File.tags := [] |} ] |}.

(** *** ZoomableImage *)

(** [createDimension] of [./utils] builds the pair that the render reads as
    [dimensions[0]] and [dimensions[1]]. *)
Definition Dimension := (number * number)%type.
Definition createDimension (w h : number) : Dimension := (w, h).

(** The props that the state and the zoom bounds depend on; the callbacks
    and transitions are handed on to the children unchanged. *)
Record Props := {
  src : string;
  thumbnailSrc : option string;
  width : number;
  height : number;
  imgWidth : number;
  imgHeight : number
}.

Module Img.
Record t := { src : string; dimensions : Dimension }.
End Img.

(** The event object an image hands to its error handler; as an object it
    is truthy, so [loadError ? a : b] tests whether one is stored. *)
Inductive ErrorEvent := ErrorEventOn (target : string).

Record State := { loadError : option ErrorEvent; currentImg : Img.t }.

(** [thumbnailSrc || src]: an absent or empty thumbnail path gives [src]. *)
Definition thumbnailOrSrc (p : Props) : string :=
  match thumbnailSrc p with
  | Some EmptyString | None => src p
  | Some t => t
  end.

(** [prevImg.src === thumbnailSrc]. *)
Definition isThumbnail (p : Props) (prevImg : Img.t) : bool :=
  match thumbnailSrc p with
  | Some t => String.eqb (Img.src prevImg) t
  | None => false
  end.

Definition initialImg (p : Props) : Img.t :=
  {| Img.src := thumbnailOrSrc p;
     Img.dimensions := createDimension (imgWidth p) (imgHeight p) |}.

Definition fullImg (p : Props) : Img.t :=
  {| Img.src := src p;
     Img.dimensions := createDimension (imgWidth p) (imgHeight p) |}.

(** The two [useState] cells as first rendered. *)
Definition initialState (p : Props) : State :=
  {| loadError := None; currentImg := initialImg p |}.

Definition setLoadError (e : option ErrorEvent) (st : State) : State :=
  {| loadError := e; currentImg := currentImg st |}.

Definition setCurrentImg (f : Img.t -> Img.t) (st : State) : State :=
  {| loadError := loadError st; currentImg := f (currentImg st) |}.

(** The effect on [[src]]. *)
Definition resetLoadError (st : State) : State := setLoadError None st.

(** The effect on [[src, thumbnailSrc]], up to the start of the load. *)
Definition showThumbnail (p : Props) (st : State) : State :=
  setCurrentImg (fun _ => initialImg p) st.

(** The updater [img.onload] passes to [setCurrentImg], and the two
    callbacks of the image that the effect loads for the props [p]. *)
Definition onloadUpdater (p : Props) (prevImg : Img.t) : Img.t :=
  if isThumbnail p prevImg then fullImg p else prevImg.

Definition onload (p : Props) (st : State) : State :=
  setCurrentImg (onloadUpdater p) st.

Definition onerror (e : ErrorEvent) (st : State) : State :=
  setLoadError (Some e) st.

Definition sameThumbnail (a b : option string) : bool :=
  match a, b with
  | Some x, Some y => String.eqb x y
  | None, None => true
  | _, _ => false
  end.

(** Effects after the first render, and after a render with new props:
    an effect runs when one of its dependencies has changed. *)
Definition mount (p : Props) : State :=
  showThumbnail p (resetLoadError (initialState p)).

Definition update (old new : Props) (st : State) : State :=
  let st1 := if String.eqb (src old) (src new) then st else resetLoadError st in
  if String.eqb (src old) (src new)
     && sameThumbnail (thumbnailSrc old) (thumbnailSrc new)
  then st1 else showThumbnail new st1.

Definition fitScale (p : Props) : number :=
  Math_min (div (width p) (imgWidth p)) (div (height p) (imgHeight p)).

Definition minScale (p : Props) : number :=
  Math_min tenth (Math_min (div (width p) (imgWidth p))
                           (div (height p) (imgHeight p))).

(** What the component shows inside its container. *)
Inductive Content :=
| ImageError (width height : number)
| ZoomPan (imageDimension containerDimension : Dimension)
          (minScale maxScale : number) (imgSrc : string).

Definition render (p : Props) (st : State) : Content :=
  match loadError st with
  | Some _ => ImageError (width p) (height p)
  | None =>
      ZoomPan (Img.dimensions (currentImg st))
              (createDimension (width p) (height p))
              (minScale p) (ofZ 5) (Img.src (currentImg st))
  end.

Definition isImageError (c : Content) : bool :=
  match c with ImageError _ _ => true | ZoomPan _ _ _ _ _ => false end.

(** A 4000 x 3000 image in an 800 x 600 container, and the same container
    showing a 16000 x 12000 image. *)
Definition sampleProps : Props :=
  {| src := "/img/a.jpg"; thumbnailSrc := Some "/thumb/a.jpg";
     width := ofZ 800; height := ofZ 600;
     imgWidth := ofZ 4000; imgHeight := ofZ 3000 |}.

Definition largeProps : Props :=
  {| src := "/img/b.jpg"; thumbnailSrc := Some "/thumb/b.jpg";
     width := ofZ 800; height := ofZ 600;
     imgWidth := ofZ 16000; imgHeight := ofZ 12000 |}.

End SlideMode.

(** ** Slide mode: theorems *)
Module SlideModeFacts.
Import Js SlideMode.
Local Open Scope Z_scope.

(** *** Navigation *)

Lemma assignFirstItem_storesIndex : storesIndex assignFirstItem.
Proof. intros i s _. reflexivity. Qed.

Lemma guardedFirstItem_storesIndex : storesIndex guardedFirstItem.
Proof.
  intros i s [_ Hi]. unfold guardedFirstItem.
  destruct (Z.ltb_spec i (fileCount s)); [reflexivity | lia].
Qed.

Lemma fileCount_positive s : fileList s <> [] -> 0 < fileCount s.
Proof.
  unfold fileCount. destruct (fileList s); [congruence | simpl; lia].
Qed.

(** C2. With a file list that is not empty and [firstItem] an index into
    it, [decrImgIndex] sets [firstItem] to [max 0 (firstItem - 1)] and
    [incrImgIndex] sets it to [min (firstItem + 1) (length - 1)]; after
    either, [firstItem] is again an index into the (unchanged) file list.
    [setFirstItem] is any action that stores an index lying inside the
    list. *)
Theorem slide_navigation_in_range
  (setFirstItem : Z -> Stores -> Stores) (s : Stores) :
  storesIndex setFirstItem ->
  fileList s <> [] ->
  0 <= firstItem s <= fileCount s - 1 ->
  let d := decrImgIndex setFirstItem s in
  let i := incrImgIndex setFirstItem s in
  firstItem d = Z.max 0 (firstItem s - 1) /\
  firstItem i = Z.min (firstItem s + 1) (fileCount s - 1) /\
  fileList d = fileList s /\ fileList i = fileList s /\
  0 <= firstItem d <= fileCount d - 1 /\
  0 <= firstItem i <= fileCount i - 1.
Proof.
  intros Hset Hne Hrange d i.
  pose proof (fileCount_positive s Hne) as Hpos.
  assert (Hd : d = {| firstItem := Z.max 0 (firstItem s - 1);
                      fileList := fileList s |}).
  { subst d. unfold decrImgIndex. apply Hset. lia. }
  assert (Hi : i = {| firstItem := Z.min (firstItem s + 1) (fileCount s - 1);
                      fileList := fileList s |}).
  { subst i. unfold incrImgIndex. apply Hset. lia. }
  rewrite Hd, Hi. unfold fileCount in *. simpl. repeat split; lia.
Qed.

Lemma slide_navigation_in_range_witness :
  firstItem (decrImgIndex guardedFirstItem sampleStores) = 0 /\
  firstItem (incrImgIndex guardedFirstItem sampleStores) = 1.
Proof.
  pose proof (slide_navigation_in_range guardedFirstItem sampleStores
                guardedFirstItem_storesIndex) as H.
  simpl in H.
  assert (Hne : fileList sampleStores <> []) by discriminate.
  assert (Hr : 0 <= firstItem sampleStores <= fileCount sampleStores - 1)
    by (vm_compute; split; discriminate).
  destruct (H Hne Hr) as [Hd [Hi _]]. split; [exact Hd | exact Hi].
Defined.

(** At the first image [decrImgIndex] stays there, at the last one
    [incrImgIndex] does; with no files [incrImgIndex] asks for index [-1]. *)
Example decrImgIndex_first :
  firstItem (decrImgIndex assignFirstItem
               {| firstItem := 0; fileList := fileList sampleStores |}) = 0.
Proof. reflexivity. Qed.

Example incrImgIndex_last :
  firstItem (incrImgIndex assignFirstItem sampleStores) = 1.
Proof. reflexivity. Qed.

Example incrImgIndex_no_files :
  firstItem (incrImgIndex assignFirstItem {| firstItem := 0; fileList := [] |})
  = -1.
Proof. reflexivity. Qed.

(** *** The zoomable image: load errors *)

Lemma update_resets_error old new st :
  src new <> src old -> loadError (update old new st) = None.
Proof.
  intros Hsrc. unfold update.
  destruct (String.eqb_spec (src old) (src new)) as [E|N]; [congruence|].
  reflexivity.
Qed.

(** C5. The image-error placeholder is rendered in place of the viewer
    exactly when a load error is stored; the effects run after a render
    whose [src] differs from the previous one, and those run on mount, store
    no error, so that the render which follows shows the viewer. *)
Theorem load_error_placeholder :
  (forall p st, isImageError (render p st) = true <-> loadError st <> None) /\
  (forall old new st, src new <> src old ->
     loadError (update old new st) = None /\
     isImageError (render new (update old new st)) = false) /\
  (forall p, loadError (mount p) = None /\
     isImageError (render p (mount p)) = false).
Proof.
  split; [|split].
  - intros p st. unfold render. destruct (loadError st); simpl.
    + split; [discriminate | reflexivity].
    + split; [discriminate | congruence].
  - intros old new st Hsrc.
    pose proof (update_resets_error old new st Hsrc) as H.
    split; [exact H|]. unfold render. now rewrite H.
  - intros p. split; reflexivity.
Qed.

Lemma load_error_placeholder_witness :
  let failed := onerror (ErrorEventOn "/img/a.jpg") (mount sampleProps) in
  isImageError (render sampleProps failed) = true /\
  loadError (update sampleProps largeProps failed) = None /\
  isImageError (render largeProps (update sampleProps largeProps failed)) = false.
Proof.
  intros failed.
  destruct load_error_placeholder as [Hiff [Hupd _]].
  split.
  - apply Hiff. discriminate.
  - apply Hupd. discriminate.
Defined.

(** *** The zoomable image: the smallest zoom scale *)

Lemma le_not_gt x y : le x y = true -> gt x y = false.
Proof.
  unfold le, gt, SFleb, SFltb. intros H.
  destruct (SFcompare x y) as [c|] eqn:E; [|discriminate].
  rewrite (JsFacts.compare_antisym _ _ _ E). destruct c; try reflexivity; discriminate.
Qed.

Example tenth_literal : div (ofZ 1) (ofZ 10) = tenth.
Proof. reflexivity. Qed.

(** C6. For a container and an image whose dimensions are positive (finite
    and above zero), [minScale] is [Math.min(0.1, Math.min(width / imgWidth,
    height / imgHeight))]; it is a number (not [NaN]), it does not exceed
    [0.1], and it does not exceed the scale at which the image fits the
    container, which is the smaller of the two quotients. *)
Theorem minScale_bounds (p : Props) :
  isPositiveFinite (width p) = true ->
  isPositiveFinite (height p) = true ->
  isPositiveFinite (imgWidth p) = true ->
  isPositiveFinite (imgHeight p) = true ->
  minScale p = Math_min tenth (fitScale p) /\
  fitScale p = Math_min (div (width p) (imgWidth p))
                        (div (height p) (imgHeight p)) /\
  isNaN (minScale p) = false /\
  le (minScale p) tenth = true /\ gt (minScale p) tenth = false /\
  le (minScale p) (fitScale p) = true /\
  gt (minScale p) (fitScale p) = false /\
  le (minScale p) (div (width p) (imgWidth p)) = true /\
  le (minScale p) (div (height p) (imgHeight p)) = true.
Proof.
  intros Hw Hh Hiw Hih.
  pose proof (JsFacts.signed_number _ _ (JsFacts.div_positive _ _ Hw Hiw)) as Hx.
  pose proof (JsFacts.signed_number _ _ (JsFacts.div_positive _ _ Hh Hih)) as Hy.
  destruct (JsFacts.Math_min_le _ _ Hx Hy) as [Hfit [Hfx Hfy]].
  fold (fitScale p) in Hfit, Hfx, Hfy.
  destruct (JsFacts.Math_min_le tenth (fitScale p) eq_refl Hfit) as [Hm [Hmt Hmf]].
  change (Math_min tenth (fitScale p)) with (minScale p) in Hm, Hmt, Hmf.
  repeat split; try assumption.
  - now apply le_not_gt.
  - now apply le_not_gt.
  - exact (JsFacts.le_trans _ _ _ Hfit Hmf Hfx).
  - exact (JsFacts.le_trans _ _ _ Hfit Hmf Hfy).
Qed.

Lemma minScale_bounds_witness :
  minScale sampleProps = tenth /\
  le (minScale largeProps) tenth = true /\
  le (minScale largeProps) (fitScale largeProps) = true.
Proof.
  split; [reflexivity|].
  destruct (minScale_bounds largeProps eq_refl eq_refl eq_refl eq_refl)
    as [_ [_ [_ [Ht [_ [Hf _]]]]]].
  split; [exact Ht | exact Hf].
Defined.

(** *** The zoomable image: full resolution replaces the thumbnail once *)

Lemma isThumbnail_true p img :
  isThumbnail p img = true <-> thumbnailSrc p = Some (Img.src img).
Proof.
  unfold isThumbnail. destruct (thumbnailSrc p) as [t|].
  - destruct (String.eqb_spec (Img.src img) t) as [E|N]; split;
      intros H; congruence.
  - split; discriminate.
Qed.

(** C8. When the source of [currentImg] is not [thumbnailSrc], the [onload]
    updater returns [currentImg] itself, and so [onload] leaves the state as
    it is; the updater changes [currentImg] only when its source is exactly
    [thumbnailSrc], and then to the full-resolution entry.  In particular a
    second [onload] changes nothing, and when the thumbnail path differs
    from [src] the entry the updater returns is never the thumbnail. *)
Theorem onload_keeps_full_resolution (p : Props) :
  (forall prevImg, thumbnailSrc p <> Some (Img.src prevImg) ->
     onloadUpdater p prevImg = prevImg) /\
  (forall st, thumbnailSrc p <> Some (Img.src (currentImg st)) ->
     onload p st = st) /\
  (forall prevImg, onloadUpdater p prevImg <> prevImg ->
     thumbnailSrc p = Some (Img.src prevImg) /\
     onloadUpdater p prevImg = fullImg p) /\
  (forall prevImg,
     onloadUpdater p (onloadUpdater p prevImg) = onloadUpdater p prevImg) /\
  (thumbnailSrc p <> Some (src p) ->
   forall prevImg,
     thumbnailSrc p <> Some (Img.src (onloadUpdater p prevImg))).
Proof.
  assert (Hkeep : forall prevImg, thumbnailSrc p <> Some (Img.src prevImg) ->
            onloadUpdater p prevImg = prevImg).
  { intros prevImg H. unfold onloadUpdater.
    destruct (isThumbnail p prevImg) eqn:E; [|reflexivity].
    apply isThumbnail_true in E. contradiction. }
  split; [exact Hkeep|]. split; [|split; [|split]].
  - intros st H. unfold onload, setCurrentImg. rewrite (Hkeep _ H).
    destruct st; reflexivity.
  - intros prevImg H. unfold onloadUpdater in *.
    destruct (isThumbnail p prevImg) eqn:E; [|congruence].
    split; [now apply isThumbnail_true | reflexivity].
  - intros prevImg. unfold onloadUpdater at 2 3.
    destruct (isThumbnail p prevImg) eqn:E.
    + unfold onloadUpdater. destruct (isThumbnail p (fullImg p)); reflexivity.
    + unfold onloadUpdater. now rewrite E.
  - intros Hne prevImg H. unfold onloadUpdater in H.
    destruct (isThumbnail p prevImg) eqn:E.
    + simpl in H. contradiction.
    + apply isThumbnail_true in H. congruence.
Qed.

Lemma onload_keeps_full_resolution_witness :
  let loaded := onload sampleProps (mount sampleProps) in
  Img.src (currentImg loaded) = "/img/a.jpg" /\
  onload sampleProps loaded = loaded.
Proof.
  intros loaded. split; [reflexivity|].
  destruct (onload_keeps_full_resolution sampleProps) as [_ [Hst _]].
  apply Hst. discriminate.
Defined.

End SlideModeFacts.

(** ** Toolbar *)
Module Toolbar.
Local Open Scope Z_scope.

Inductive ShowLabel := always | never.
Inductive HasPopup := popup (b : bool) | menu | listbox | tree | grid | dialog.
Record MouseEvent := { ctrlKey : bool; shiftKey : bool }.

Section Button.

(** Whatever the click handlers act on. *)
Variable World : Type.

Definition Handler := MouseEvent -> World -> World.

(** [IToolbarButton]; an optional prop that is left out is [None]. *)
Record IToolbarButton := {
  id : option string;
  text : string;
  icon : string;
  onClick : option Handler;
  showLabel : option ShowLabel;
  tooltip : option string;
  tabIndex : option Z;
  role : option string;
  disabled : option bool;
  pressed : option bool;
  checked : option bool;
  expanded : option bool;
  controls : option string;
  haspopup : option HasPopup
}.

(** The content of the button: icon and label, inside a tooltip when one is
    given. *)
Record Content := { contentIcon : string; labelClass : option ShowLabel;
                    label : string }.

Inductive Children :=
| WithTooltip (content : string) (hoverDelay : Z) (child : Content)
| Plain (child : Content).

(** The attributes of the rendered [button] element. *)
Record ButtonElement := {
  el_id : option string;
  el_className : string;
  el_onClick : option Handler;
  el_role : option string;
  aria_pressed : option bool;
  aria_checked : option bool;
  aria_disabled : option bool;
  aria_controls : option string;
  aria_haspopup : option HasPopup;
  aria_expanded : option bool;
  el_tabIndex : Z;
  el_children : Children
}.

(** Truthiness of an optional boolean and of an optional string. *)
Definition truthy (b : option bool) : bool :=
  match b with Some true => true | _ => false end.

Definition nonEmpty (s : option string) : option string :=
  match s with
  | Some EmptyString | None => None
  | Some t => Some t
  end.

Definition ToolbarButton (props : IToolbarButton) : ButtonElement :=
  let content := {| contentIcon := icon props; labelClass := showLabel props;
                    label := text props |} in
  {| el_id := id props;
     el_className := "toolbar-item toolbar-button";
     el_onClick := if truthy (disabled props) then None else onClick props;
     el_role := role props;
     aria_pressed := pressed props;
     aria_checked := checked props;
     aria_disabled := disabled props;
     aria_controls := controls props;
     aria_haspopup := haspopup props;
     aria_expanded := expanded props;
     el_tabIndex := match tabIndex props with Some i => i | None => -1 end;
     el_children := match nonEmpty (tooltip props) with
                    | Some t => WithTooltip t 1500 content
                    | None => Plain content
                    end |}.

(** Activating the element runs the handler attached to it, if any. *)
Definition click (b : ButtonElement) (e : MouseEvent) (w : World) : World :=
  match el_onClick b with
  | Some h => h e w
  | None => w
  end.

End Button.

Arguments id {World}.
Arguments text {World}.
Arguments icon {World}.
Arguments onClick {World}.
Arguments showLabel {World}.
Arguments tooltip {World}.
Arguments tabIndex {World}.
Arguments role {World}.
Arguments disabled {World}.
Arguments pressed {World}.
Arguments checked {World}.
Arguments expanded {World}.
Arguments controls {World}.
Arguments haspopup {World}.
Arguments el_onClick {World}.
Arguments aria_disabled {World}.
Arguments el_tabIndex {World}.
Arguments el_children {World}.
Arguments ToolbarButton {World}.
Arguments click {World}.

(** A disabled button whose handler counts its calls. *)
Definition sampleButton : IToolbarButton nat :=
  {| id := None; text := "Delete"; icon := "delete";
     onClick := Some (fun _ n => S n);
     showLabel := None; tooltip := Some "Delete the selection";
     tabIndex := None; role := None; disabled := Some true;
     pressed := None; checked := None; expanded := None;
     controls := None; haspopup := None |}.

(** C7. A [ToolbarButton] rendered with [disabled = true] has no [onClick]
    handler on its button element, so that activating it leaves everything
    as it is whatever the supplied callback would do; [aria-disabled] is the
    [disabled] prop; and with [tabIndex] left out the rendered [tabIndex] is
    [-1]. *)
Theorem ToolbarButton_disabled {World : Type} (props : IToolbarButton World) :
  (disabled props = Some true ->
     el_onClick (ToolbarButton props) = None /\
     forall e w, click (ToolbarButton props) e w = w) /\
  aria_disabled (ToolbarButton props) = disabled props /\
  (tabIndex props = None -> el_tabIndex (ToolbarButton props) = -1).
Proof.
  split; [|split].
  - intros Hd. unfold click. simpl. rewrite Hd. simpl. split; reflexivity.
  - reflexivity.
  - intros Ht. simpl. now rewrite Ht.
Qed.

Lemma ToolbarButton_disabled_witness :
  el_onClick (ToolbarButton sampleButton) = None /\
  click (ToolbarButton sampleButton) {| ctrlKey := false; shiftKey := false |} 0%nat
    = 0%nat /\
  el_tabIndex (ToolbarButton sampleButton) = -1.
Proof.
  destruct (ToolbarButton_disabled sampleButton) as [Hd [_ Ht]].
  destruct (Hd eq_refl) as [Hnone Hclick].
  split; [exact Hnone|]. split; [apply Hclick | apply Ht; reflexivity].
Defined.

(** A button that is not disabled keeps the handler it was given. *)
Lemma ToolbarButton_enabled {World : Type} (props : IToolbarButton World) :
  disabled props <> Some true ->
  el_onClick (ToolbarButton props) = onClick props.
Proof.
  intros H. simpl. destruct (disabled props) as [[|]|]; simpl; congruence.
Qed.

End Toolbar.

(** ** Gallery item *)
Module GalleryItem.
Import File.

(** *** Dropping a tag on an item *)

Record DataTransfer := {
  types : list string;
  getData : string -> string;
  dropEffect : string
}.

(** A drag event: its data transfer and [currentTarget.dataset] at the
    drop-target attribute. *)
Record DragEvent := { dataTransfer : DataTransfer; target : option string }.

Section Drop.

(** Three things that [handleDrop] uses are declared elsewhere in the
    front end: the drag-and-drop type of a tag, the tags of
    [uiStore.getTagContextItems] for a dragged id, and [file.addTag]. *)
Variable DnDType : string.
Variable getTagContextItems : string -> list Tag.ClientTag.
Variable addTag : ID -> ClientFile -> ClientFile.

(** The callback of [ctx.tags.forEach]. *)
Definition addTagAndSubTags (file : ClientFile) (tag : Tag.ClientTag) : ClientFile :=
  fold_left (fun f sub => addTag sub f) (Tag.subTags tag)
            (addTag (Tag.id tag) file).

Definition handleDrop (event : DragEvent) (file : ClientFile)
  : DragEvent * ClientFile :=
  let dt := dataTransfer event in
  if Arr.includes (types dt) DnDType then
    let ctx := getTagContextItems (getData dt DnDType) in
    let file' := fold_left addTagAndSubTags ctx file in
    ({| dataTransfer := {| types := types dt; getData := getData dt;
                           dropEffect := "none" |};
        target := Some "false" |}, file')
  else (event, file).

End Drop.

(** What [handleDrop] relies on from [file.addTag]: the tag is among the
    file's tags afterwards, and so is every tag that was there before. *)
Definition addsTag (addTag : ID -> ClientFile -> ClientFile) : Prop :=
  forall t f, In t (tags (addTag t f)) /\
              forall u, In u (tags f) -> In u (tags (addTag t f)).

(** An [addTag] that appends a tag the file does not carry yet. *)
Definition addTagOnce (t : ID) (f : ClientFile) : ClientFile :=
  if Arr.includes (tags f) t then f
  else {| id := id f; tags := Arr.push t (tags f) |}.

Definition sampleTags : list Tag.ClientTag :=
  [ {| Tag.id := "animals"; Tag.subTags := ["cats"; "dogs"] |};
    {| Tag.id := "cats"; Tag.subTags := [] |} ].

(** A context of one tag: the dragged one, when it exists. *)
Definition sampleContext (dragged : string) : list Tag.ClientTag :=
  match find (fun t => String.eqb (Tag.id t) dragged) sampleTags with
  | Some t => [t]
  | None => []
  end.

Definition sampleDrop : DragEvent :=
  {| dataTransfer := {| types := ["text/plain"; "tag"];
                        getData := fun ty => if String.eqb ty "tag" then "animals" else "";
                        dropEffect := "link" |};
     target := Some "true" |}.

Definition sampleFile : ClientFile := {| id := "f1"; tags := ["dogs"] |}.

(** *** Thumbnail readiness *)

Record ThumbnailState := {
  isThumbnailReady : bool;
  isThumbnailGenerating : bool
}.

(** [String.prototype.endsWith] without an end position. *)
Definition endsWith (s search : string) : bool :=
  let len := String.length s in
  let n := String.length search in
  if (len <? n)%nat then false
  else String.eqb (substring (len - n) n s) search.

(** The effect on [[imagePath]]. *)
Definition thumbnailReadyEffect (imagePath : string) (st : ThumbnailState)
  : ThumbnailState :=
  if endsWith imagePath "?v=1"
  then {| isThumbnailReady := true; isThumbnailGenerating := false |}
  else st.

(** The continuation of [ensureThumbnail], and [handleImageError]. *)
Definition ensureThumbnailDone (exists_ isBroken : bool) (st : ThumbnailState)
  : ThumbnailState :=
  if negb exists_
  then {| isThumbnailReady := false;
          isThumbnailGenerating :=
            if negb isBroken then true else isThumbnailGenerating st |}
  else st.

Definition handleImageError (st : ThumbnailState) : ThumbnailState :=
  {| isThumbnailReady := false;
     isThumbnailGenerating := isThumbnailGenerating st |}.

(** What the item shows in place of its thumbnail. *)
Inductive Thumbnail :=
| img (src : string)
| DonutLoading
| MissingImageFallback.

Definition renderThumbnail (imagePath : string) (st : ThumbnailState) : Thumbnail :=
  if isThumbnailReady st then img imagePath
  else if isThumbnailGenerating st then DonutLoading
  else MissingImageFallback.

End GalleryItem.

(** ** Gallery item: theorems *)
Module GalleryItemFacts.
Import File GalleryItem.

Section DropFacts.

Variable DnDType : string.
Variable getTagContextItems : string -> list Tag.ClientTag.
Variable addTag : ID -> ClientFile -> ClientFile.
Hypothesis addTag_adds : addsTag addTag.

Lemma addTag_in t f : In t (tags (addTag t f)).
Proof. apply (proj1 (addTag_adds t f)). Qed.

Lemma addTag_keeps t f u : In u (tags f) -> In u (tags (addTag t f)).
Proof. apply (proj2 (addTag_adds t f)). Qed.

Lemma addSubTags_keeps subs : forall f u,
  In u (tags f) ->
  In u (tags (fold_left (fun g sub => addTag sub g) subs f)).
Proof.
  induction subs as [|s r IH]; simpl; intros f u H; [assumption|].
  apply IH. now apply addTag_keeps.
Qed.

Lemma addSubTags_adds subs : forall f sub,
  In sub subs ->
  In sub (tags (fold_left (fun g s => addTag s g) subs f)).
Proof.
  induction subs as [|s r IH]; simpl; intros f sub H; [contradiction|].
  destruct H as [->|H].
  - apply addSubTags_keeps. apply addTag_in.
  - now apply IH.
Qed.

Lemma addTagAndSubTags_keeps f tag u :
  In u (tags f) -> In u (tags (addTagAndSubTags addTag f tag)).
Proof.
  intros H. unfold addTagAndSubTags. apply addSubTags_keeps.
  now apply addTag_keeps.
Qed.

Lemma addTagAndSubTags_adds f tag :
  In (Tag.id tag) (tags (addTagAndSubTags addTag f tag)) /\
  forall sub, In sub (Tag.subTags tag) ->
    In sub (tags (addTagAndSubTags addTag f tag)).
Proof.
  unfold addTagAndSubTags. split.
  - apply addSubTags_keeps. apply addTag_in.
  - intros sub H. now apply addSubTags_adds.
Qed.

Lemma forEach_tags_keeps ctx : forall f u,
  In u (tags f) -> In u (tags (fold_left (addTagAndSubTags addTag) ctx f)).
Proof.
  induction ctx as [|t r IH]; simpl; intros f u H; [assumption|].
  apply IH. now apply addTagAndSubTags_keeps.
Qed.

Lemma forEach_tags_adds ctx : forall f tag,
  In tag ctx ->
  In (Tag.id tag) (tags (fold_left (addTagAndSubTags addTag) ctx f)) /\
  forall sub, In sub (Tag.subTags tag) ->
    In sub (tags (fold_left (addTagAndSubTags addTag) ctx f)).
Proof.
  induction ctx as [|t r IH]; simpl; intros f tag H; [contradiction|].
  destruct H as [->|H]; [|now apply IH].
  destruct (addTagAndSubTags_adds f tag) as [Hid Hsub]. split.
  - now apply forEach_tags_keeps.
  - intros sub Hs. apply forEach_tags_keeps. now apply Hsub.
Qed.

End DropFacts.

(** C3. A drop whose data-transfer types include the tag drag-and-drop type
    leaves the file with the id of every dragged tag (the tags of the drag
    context) and the id of each of its sub-tags among its tags, and with the
    tags it had; a drop whose types do not include it leaves event and file
    as they were.  [addTag] is any action that adds a tag to a file. *)
Theorem handleDrop_adds_tags
  (DnDType : string) (getTagContextItems : string -> list Tag.ClientTag)
  (addTag : ID -> ClientFile -> ClientFile)
  (event : DragEvent) (file : ClientFile) :
  addsTag addTag ->
  let dropped := handleDrop DnDType getTagContextItems addTag event file in
  (In DnDType (types (dataTransfer event)) ->
     (forall tag,
        In tag (getTagContextItems (getData (dataTransfer event) DnDType)) ->
        In (Tag.id tag) (tags (snd dropped)) /\
        forall sub, In sub (Tag.subTags tag) -> In sub (tags (snd dropped))) /\
     (forall u, In u (tags file) -> In u (tags (snd dropped)))) /\
  (~ In DnDType (types (dataTransfer event)) ->
     dropped = (event, file) /\ tags (snd dropped) = tags file).
Proof.
  intros Hadd dropped. subst dropped. unfold handleDrop.
  destruct (Arr.includes (types (dataTransfer event)) DnDType) eqn:E.
  - apply ArrFacts.includes_In in E. split; [|intros Hn; contradiction].
    intros _. simpl. split.
    + intros tag Htag. now apply forEach_tags_adds.
    + intros u Hu. now apply forEach_tags_keeps.
  - split; [|intros _; split; reflexivity].
    intros Hin. apply ArrFacts.includes_In in Hin. congruence.
Qed.

Lemma addTagOnce_addsTag : addsTag addTagOnce.
Proof.
  intros t f. unfold addTagOnce.
  destruct (Arr.includes (tags f) t) eqn:E.
  - apply ArrFacts.includes_In in E. split; [assumption | tauto].
  - simpl. unfold Arr.push. split.
    + apply in_or_app. right. now left.
    + intros u Hu. apply in_or_app. now left.
Qed.

Lemma handleDrop_adds_tags_witness :
  tags (snd (handleDrop "tag" sampleContext addTagOnce sampleDrop sampleFile))
    = ["dogs"; "animals"; "cats"] /\
  forall u, In u (tags sampleFile) ->
    In u (tags (snd (handleDrop "tag" sampleContext addTagOnce sampleDrop sampleFile))).
Proof.
  split; [reflexivity|].
  destruct (handleDrop_adds_tags "tag" sampleContext addTagOnce sampleDrop
              sampleFile addTagOnce_addsTag) as [Hin _].
  apply Hin. simpl. right. left. reflexivity.
Defined.

(** *** Thumbnail readiness *)

Lemma length_append a b :
  String.length (a ++ b) = String.length a + String.length b.
Proof. induction a as [|c a IH]; simpl; [reflexivity | now rewrite IH]. Qed.

Lemma substring_all s : substring 0 (String.length s) s = s.
Proof. induction s as [|c s IH]; simpl; [reflexivity | now rewrite IH]. Qed.

Lemma substring_append a b n :
  substring (String.length a) n (a ++ b) = substring 0 n b.
Proof. induction a as [|c a IH]; simpl; [reflexivity | exact IH]. Qed.

Lemma substring_split s : forall k, k <= String.length s ->
  (substring 0 k s ++ substring k (String.length s - k) s)%string = s.
Proof.
  induction s as [|c s IH]; intros k Hk; simpl in *.
  - destruct k; [reflexivity | lia].
  - destruct k as [|k]; simpl.
    + now rewrite substring_all.
    + rewrite IH; [reflexivity | lia].
Qed.

(** [endsWith] decides whether a string is some prefix followed by the
    searched string. *)
Lemma endsWith_spec s search :
  endsWith s search = true <-> exists prefix, s = (prefix ++ search)%string.
Proof.
  unfold endsWith. split.
  - destruct (Nat.ltb_spec (String.length s) (String.length search)) as [Hlt|Hge];
      [discriminate|].
    intros H. apply String.eqb_eq in H.
    exists (substring 0 (String.length s - String.length search) s).
    pose proof (substring_split s (String.length s - String.length search)) as Hs.
    replace (String.length s - (String.length s - String.length search))
      with (String.length search) in Hs by lia.
    rewrite H in Hs. symmetry. apply Hs. lia.
  - intros [prefix ->]. rewrite length_append.
    destruct (Nat.ltb_spec (String.length prefix + String.length search)
                (String.length search)) as [Hlt|Hge]; [lia|].
    replace (String.length prefix + String.length search - String.length search)
      with (String.length prefix) by lia.
    rewrite substring_append, substring_all. apply String.eqb_refl.
Qed.

(** C4. When the image path ends with [?v=1], the effect on the image path
    sets [isThumbnailReady] to [true] and [isThumbnailGenerating] to
    [false], whatever they were, and the item then renders the [img]
    element, not the loading placeholder nor the missing-image fallback. *)
Theorem thumbnail_ready_on_version_suffix (imagePath : string) (st : ThumbnailState) :
  (exists prefix, imagePath = (prefix ++ "?v=1")%string) ->
  thumbnailReadyEffect imagePath st =
    {| isThumbnailReady := true; isThumbnailGenerating := false |} /\
  renderThumbnail imagePath (thumbnailReadyEffect imagePath st) = img imagePath.
Proof.
  intros H. apply endsWith_spec in H. unfold thumbnailReadyEffect.
  rewrite H. split; reflexivity.
Qed.

Lemma thumbnail_ready_on_version_suffix_witness :
  let generating := {| isThumbnailReady := false; isThumbnailGenerating := true |} in
  renderThumbnail "/thumbs/a.jpg" generating = DonutLoading /\
  renderThumbnail "/thumbs/a.jpg?v=1"
    (thumbnailReadyEffect "/thumbs/a.jpg?v=1" generating) = img "/thumbs/a.jpg?v=1".
Proof.
  intros generating. split; [reflexivity|].
  apply (thumbnail_ready_on_version_suffix "/thumbs/a.jpg?v=1" generating).
  exists "/thumbs/a.jpg". reflexivity.
Defined.

End GalleryItemFacts.

(** ** The selection store: what the actions do to the file selection *)
Module UiStoreLaws.
Import File UiStore UiStoreFacts.
Local Open Scope action_scope.

(** Whether a selected id survives [cleanFileSelection] under the tag
    selection [sel]. *)
Definition carriesSelectedTag (sel : list ID) (files : list ClientFile)
  (i : ID) : bool :=
  negb (untagged sel files i).

(** The store that [selectTag] and [deselectTag] leave, [f] being what the
    action does to the tag selection. *)
Definition retagged (f : list ID -> list ID) (s : Store) : Store :=
  {| fileSelection :=
       filter (carriesSelectedTag (f (tagSelection s)) (fileList s))
              (fileSelection s);
     tagSelection := f (tagSelection s);
     fileList := fileList s;
     fetchCalls := fetchCalls s ++ [f (tagSelection s)] |}.

Definition selectionUnresolved (s : Store) : Prop :=
  exists i, In i (fileSelection s) /\ findFile i (fileList s) = None.

Definition unresolvedStore : Store :=
  {| fileSelection := ["f3"; "gone"; "f1"]; tagSelection := ["t3"];
     fileList := sampleFiles; fetchCalls := [] |}.

Lemma remove_notin x l : ~ In x l -> Arr.remove x l = l.
Proof.
  induction l as [|y r IH]; simpl; intros H; [reflexivity|].
  destruct (String.eqb_spec y x) as [E|N]; [tauto|].
  rewrite IH; [reflexivity | tauto].
Qed.

Lemma remove_app_head x P r : ~ In x P -> Arr.remove x (P ++ x :: r) = P ++ r.
Proof.
  induction P as [|y P IH]; simpl; intros H.
  - now rewrite String.eqb_refl.
  - destruct (String.eqb_spec y x) as [E|N]; [tauto|].
    rewrite IH; [reflexivity | tauto].
Qed.

(** The loop removes first occurrences, yet what it leaves is the selection
    filtered in place: the ids before the one being visited all carry a
    selected tag, so the first occurrence of an untagged id is the visited
    one. *)
Lemma cleanIds_filter sel files l : forall P,
  (forall i, In i P -> untagged sel files i = false) ->
  cleanIds sel files l (P ++ l) = P ++ filter (carriesSelectedTag sel files) l.
Proof.
  unfold cleanIds, carriesSelectedTag.
  induction l as [|j r IH]; intros P HP; [reflexivity|].
  simpl. destruct (untagged sel files j) eqn:E; simpl.
  - rewrite remove_app_head.
    + now apply IH.
    + intros Hin. apply HP in Hin. congruence.
  - change (P ++ j :: r) with (P ++ [j] ++ r). rewrite app_assoc.
    rewrite IH.
    + now rewrite <- app_assoc.
    + intros i Hi. apply in_app_or in Hi. destruct Hi as [Hi|[<-|[]]]; auto.
Qed.

Lemma cleanFileSelection_filter s :
  selectionResolves s ->
  cleanFileSelection s =
  Returned tt
    (set_fileSelection
       (filter (carriesSelectedTag (tagSelection s) (fileList s))) s).
Proof.
  intros Hres. rewrite (cleanFileSelection_run s Hres).
  unfold set_fileSelection. f_equal. f_equal.
  apply (cleanIds_filter _ _ (fileSelection s) []). intros i [].
Qed.

Lemma retag_filter (f : list ID -> list ID) s :
  selectionResolves s ->
  (modify (set_tagSelection f) ;; cleanFileSelection ;;
   sel <- gets tagSelection ;; fetchFilesByTagIDs sel) s
  = Returned tt (retagged f s).
Proof.
  intros Hres. unfold bind at 1, modify at 1. unfold bind at 1.
  rewrite (cleanFileSelection_filter (set_tagSelection f s) Hres).
  reflexivity.
Qed.

Lemma filter_all {A} (p : A -> bool) l :
  (forall x, In x l -> p x = true) -> filter p l = l.
Proof.
  induction l as [|a r IH]; simpl; intros H; [reflexivity|].
  rewrite (H a (or_introl eq_refl)), IH; auto.
Qed.

Lemma filter_none {A} (p : A -> bool) l :
  (forall x, In x l -> p x = false) -> filter p l = [].
Proof.
  induction l as [|a r IH]; simpl; intros H; [reflexivity|].
  rewrite (H a (or_introl eq_refl)), IH; auto.
Qed.

Lemma filter_twice {A} (p : A -> bool) l : filter p (filter p l) = filter p l.
Proof.
  apply filter_all. intros x Hx. apply filter_In in Hx. tauto.
Qed.

Lemma isTagged_In sel f :
  isTagged sel f = true <-> exists t, In t (tags f) /\ In t sel.
Proof.
  unfold isTagged, Arr.some. rewrite existsb_exists.
  split; intros [t [Ht Hs]]; exists t; (split; [assumption|]);
    now apply ArrFacts.includes_In.
Qed.

Lemma selectionTagged_resolves s : selectionTagged s -> selectionResolves s.
Proof.
  intros H i Hi. destruct (H i Hi) as [f [Hf _]].
  exists f. now apply findFile_Some.
Qed.

(** The loop stops at the first entry that is [undefined]. *)
Lemma forEach_unresolved l : forall s,
  (exists i, In i l /\ findFile i (fileList s) = None) ->
  exists s',
    forEach (map (fun i => findFile i (fileList s)) l) deselectIfUntagged s
    = Thrown TypeError s' /\
    tagSelection s' = tagSelection s /\ fileList s' = fileList s /\
    fetchCalls s' = fetchCalls s /\
    incl (fileSelection s') (fileSelection s).
Proof.
  induction l as [|j r IH]; intros s [i [Hin Hnone]]; [contradiction|].
  simpl. unfold bind at 1, deselectIfUntagged at 1.
  destruct (findFile j (fileList s)) as [f|] eqn:Ej.
  - assert (Hr : exists i', In i' r /\ findFile i' (fileList s) = None).
    { destruct Hin as [<-|Hin]; [congruence | now exists i]. }
    unfold bind at 1, gets at 1.
    destruct (negb (isTagged (tagSelection s) f)).
    + unfold deselectFile, modify.
      destruct (IH (set_fileSelection (Arr.remove (id f)) s) Hr)
        as [s' [Hrun [Hts [Hfl [Hfc Hincl]]]]].
      simpl in Hrun, Hts, Hfl, Hfc, Hincl.
      exists s'. split; [exact Hrun|]. repeat split; try assumption.
      intros x Hx. apply Hincl in Hx. now apply ArrFacts.remove_incl in Hx.
    + unfold ret at 1. now apply IH.
  - exists s. split; [reflexivity|]. repeat split. apply incl_refl.
Qed.

Lemma retag_unresolved (f : list ID -> list ID) s :
  selectionUnresolved s ->
  exists s',
    (modify (set_tagSelection f) ;; cleanFileSelection ;;
     sel <- gets tagSelection ;; fetchFilesByTagIDs sel) s
    = Thrown TypeError s' /\
    tagSelection s' = f (tagSelection s) /\
    fetchCalls s' = fetchCalls s /\
    incl (fileSelection s') (fileSelection s).
Proof.
  intros Hun.
  destruct (forEach_unresolved (fileSelection s) (set_tagSelection f s) Hun)
    as [s' [Hrun [Hts [_ [Hfc Hincl]]]]].
  exists s'. split.
  - unfold bind at 1, modify at 1. unfold bind at 1.
    unfold cleanFileSelection, bind at 1, gets at 1, clientFileSelection.
    simpl in Hrun. simpl. now rewrite Hrun.
  - simpl in Hts, Hfc, Hincl. now repeat split.
Qed.

(** X1. [selectTag] and [deselectTag] keep, in its order and with its
    repetitions, exactly the part of the file selection whose files carry a
    tag of the new tag selection, and call the fetch once with that tag
    selection. *)
Theorem selectTag_deselectTag_filter (s : Store) (tag : Tag.ClientTag) :
  selectionResolves s ->
  selectTag tag s = Returned tt (retagged (Arr.push (Tag.id tag)) s) /\
  deselectTag tag s = Returned tt (retagged (Arr.remove (Tag.id tag)) s).
Proof.
  intros Hres. split; now apply retag_filter.
Qed.

Lemma selectTag_deselectTag_filter_witness :
  exists s', deselectTag {| Tag.id := "t9"; Tag.subTags := [] |} sampleStore
             = Returned tt s' /\
    fileSelection s' = ["f2"; "f2"] /\ fetchCalls s' = [["t3"]].
Proof.
  eexists. split.
  - apply (selectTag_deselectTag_filter sampleStore _ sampleStore_resolves).
  - split; reflexivity.
Defined.

(** X2. In a store whose selected files all carry a selected tag, selecting
    one more tag deselects nothing. *)
Theorem selectTag_keeps_tagged_selection (s : Store) (tag : Tag.ClientTag) :
  selectionTagged s ->
  exists s', selectTag tag s = Returned tt s' /\
    fileSelection s' = fileSelection s.
Proof.
  intros Htag. eexists. split.
  - apply retag_filter. now apply selectionTagged_resolves.
  - simpl. apply filter_all. intros i Hi.
    destruct (Htag i Hi) as [f [Hf [t [Ht Hsel]]]].
    unfold carriesSelectedTag, untagged. rewrite Hf, negb_involutive.
    apply isTagged_In. exists t. split; [assumption|].
    unfold Arr.push. apply in_or_app. now left.
Qed.

Lemma selectTag_keeps_tagged_selection_witness :
  exists s',
    selectTag sampleTag
      {| fileSelection := ["f2"; "f2"]; tagSelection := ["t3"];
         fileList := sampleFiles; fetchCalls := [] |} = Returned tt s' /\
    fileSelection s' = ["f2"; "f2"].
Proof.
  apply (selectTag_keeps_tagged_selection
           {| fileSelection := ["f2"; "f2"]; tagSelection := ["t3"];
              fileList := sampleFiles; fetchCalls := [] |}).
  intros i Hi. simpl in Hi. destruct Hi as [<-|[<-|[]]];
    (eexists; split; [reflexivity|]; exists "t3"; simpl; tauto).
Defined.

(** X3. When [deselectTag] leaves the tag selection empty, it empties the
    file selection as well: no file carries a tag of an empty selection. *)
Theorem deselectTag_last_empties_selection (s : Store) (tag : Tag.ClientTag) :
  selectionResolves s ->
  Arr.remove (Tag.id tag) (tagSelection s) = [] ->
  exists s', deselectTag tag s = Returned tt s' /\
    tagSelection s' = [] /\ fileSelection s' = [] /\
    fetchCalls s' = fetchCalls s ++ [[]].
Proof.
  intros Hres Hlast. eexists. split; [now apply retag_filter|].
  simpl. rewrite Hlast. repeat split.
  apply filter_none. intros i Hi.
  destruct (findFile_resolves _ _ (Hres i Hi)) as [f Hf].
  unfold carriesSelectedTag, untagged. rewrite Hf, negb_involutive.
  destruct (isTagged [] f) eqn:E; [|reflexivity].
  apply isTagged_In in E. destruct E as [t [_ []]].
Qed.

Lemma deselectTag_last_empties_selection_witness :
  exists s', deselectTag {| Tag.id := "t3"; Tag.subTags := [] |} sampleStore
             = Returned tt s' /\
    tagSelection s' = [] /\ fileSelection s' = [] /\
    fetchCalls s' = fetchCalls sampleStore ++ [[]].
Proof.
  apply (deselectTag_last_empties_selection sampleStore _ sampleStore_resolves).
  reflexivity.
Defined.

(** X4. When some selected id refers to no file of the file list,
    [selectTag] and [deselectTag] throw a [TypeError]; the tag selection has
    been changed by then, no fetch call has been made, and no id has been
    added to the file selection. *)
Theorem selectTag_deselectTag_unresolved (s : Store) (tag : Tag.ClientTag) :
  selectionUnresolved s ->
  (exists s', selectTag tag s = Thrown TypeError s' /\
     tagSelection s' = Arr.push (Tag.id tag) (tagSelection s) /\
     fetchCalls s' = fetchCalls s /\
     incl (fileSelection s') (fileSelection s)) /\
  (exists s', deselectTag tag s = Thrown TypeError s' /\
     tagSelection s' = Arr.remove (Tag.id tag) (tagSelection s) /\
     fetchCalls s' = fetchCalls s /\
     incl (fileSelection s') (fileSelection s)).
Proof.
  intros Hun. split; now apply retag_unresolved.
Qed.

Lemma selectTag_deselectTag_unresolved_witness :
  selectTag sampleTag unresolvedStore
  = Thrown TypeError
      {| fileSelection := ["gone"; "f1"]; tagSelection := ["t3"; "t1"];
         fileList := sampleFiles; fetchCalls := [] |} /\
  exists s', deselectTag sampleTag unresolvedStore = Thrown TypeError s' /\
    fetchCalls s' = [].
Proof.
  split; [reflexivity|].
  assert (Hun : selectionUnresolved unresolvedStore).
  { exists "gone". split; [simpl; tauto | reflexivity]. }
  destruct (selectTag_deselectTag_unresolved unresolvedStore sampleTag Hun)
    as [_ [s' [Hrun [_ [Hfc _]]]]].
  exists s'. split; [exact Hrun | exact Hfc].
Defined.

Lemma retagged_tagged_selection (f : list ID -> list ID) s :
  selectionTagged s ->
  (forall t, In t (tagSelection s) -> In t (f (tagSelection s))) ->
  fileSelection (retagged f s) = fileSelection s.
Proof.
  intros Htag Hf. simpl. apply filter_all. intros i Hi.
  destruct (Htag i Hi) as [g [Hg [t [Ht Hsel]]]].
  unfold carriesSelectedTag, untagged. rewrite Hg, negb_involutive.
  apply isTagged_In. exists t. split; [assumption | now apply Hf].
Qed.

Lemma retagged_selectionTagged (f : list ID -> list ID) s :
  selectionResolves s -> selectionTagged (retagged f s).
Proof.
  intros Hres i Hi. simpl in Hi. apply filter_In in Hi. destruct Hi as [Hi Hc].
  destruct (findFile_resolves _ _ (Hres i Hi)) as [g Hg].
  exists g. split; [exact Hg|].
  unfold carriesSelectedTag, untagged in Hc. rewrite Hg, negb_involutive in Hc.
  now apply isTagged_In in Hc.
Qed.

(** X5. [deselectFile] removes one occurrence only: the file is still
    selected afterwards exactly when it was selected at least twice, and a
    store in which it is not selected is left as it is. *)
Theorem deselectFile_once (s : Store) (f : ClientFile) :
  exists s', deselectFile f s = Returned tt s' /\
    (In (id f) (fileSelection s') <->
     2 <= count_occ string_dec (fileSelection s) (id f)) /\
    (~ In (id f) (fileSelection s) -> s' = s) /\
    (forall i, i <> id f ->
       count_occ string_dec (fileSelection s') i =
       count_occ string_dec (fileSelection s) i).
Proof.
  eexists. split; [reflexivity|]. simpl. split; [|split].
  - rewrite (count_occ_In string_dec), ArrFacts.remove_count.
    destruct (string_dec (id f) (id f)); [lia | congruence].
  - intros H. unfold set_fileSelection. rewrite (remove_notin _ _ H).
    destruct s; reflexivity.
  - intros i Hi. rewrite ArrFacts.remove_count.
    destruct (string_dec (id f) i); congruence.
Qed.

Lemma deselectFile_once_witness :
  exists s', deselectFile {| id := "f2"; tags := ["t3"] |} sampleStore
             = Returned tt s' /\
    In "f2" (fileSelection s') /\
    deselectFile {| id := "f9"; tags := [] |} sampleStore
      = Returned tt sampleStore.
Proof.
  destruct (deselectFile_once sampleStore {| id := "f2"; tags := ["t3"] |})
    as [s' [Hrun [Hin _]]].
  exists s'. split; [exact Hrun|]. split.
  - apply Hin. vm_compute. repeat constructor.
  - destruct (deselectFile_once sampleStore {| id := "f9"; tags := [] |})
      as [s9 [Hrun9 [_ [Hsame _]]]].
    rewrite Hrun9. f_equal. apply Hsame.
    simpl. intros [H|[H|[H|[H|[]]]]]; discriminate.
Defined.

(** X6. When every selected id refers to a file, [clientFileSelection] has
    one file per selected id, in the order of the selection, and the id of
    each is the selected id it stands for; none of its entries is
    [undefined]. *)
Theorem clientFileSelection_resolved (s : Store) :
  selectionResolves s ->
  exists files,
    clientFileSelection s = map Some files /\
    map id files = fileSelection s /\
    Forall (fun f => In f (fileList s)) files.
Proof.
  intros Hres. unfold clientFileSelection, selectionResolves in *.
  induction (fileSelection s) as [|i r IH].
  - exists []. repeat split. constructor.
  - destruct IH as [files [Hmap [Hid Hall]]].
    { intros j Hj. apply Hres. now right. }
    destruct (findFile_resolves _ _ (Hres i (or_introl eq_refl))) as [f Hf].
    destruct (findFile_Some _ _ _ Hf) as [Hin Hidf].
    exists (f :: files). simpl. rewrite Hf, Hmap, Hid, Hidf.
    repeat split. now constructor.
Qed.

Lemma clientFileSelection_resolved_witness :
  exists files,
    clientFileSelection sampleStore = map Some files /\
    map id files = ["f1"; "f2"; "f3"; "f2"].
Proof.
  destruct (clientFileSelection_resolved sampleStore sampleStore_resolves)
    as [files [Hmap [Hid _]]].
  exists files. split; [exact Hmap | exact Hid].
Defined.

(** X7. Deselecting a tag that is not selected changes neither selection of
    a store whose selected files all carry a selected tag; the files are
    fetched again all the same. *)
Theorem deselectTag_unselected (s : Store) (tag : Tag.ClientTag) :
  selectionTagged s ->
  ~ In (Tag.id tag) (tagSelection s) ->
  exists s', deselectTag tag s = Returned tt s' /\
    tagSelection s' = tagSelection s /\
    fileSelection s' = fileSelection s /\
    fetchCalls s' = fetchCalls s ++ [tagSelection s].
Proof.
  intros Htag Hnot. eexists. split.
  - apply retag_filter. now apply selectionTagged_resolves.
  - pose proof (remove_notin _ _ Hnot) as Hrem.
    split; [exact Hrem|]. split.
    + apply retagged_tagged_selection; [assumption|].
      intros t Ht. now rewrite Hrem.
    + simpl. now rewrite Hrem.
Qed.

Lemma deselectTag_unselected_witness :
  let s := {| fileSelection := ["f2"; "f1"]; tagSelection := ["t3"; "t2"];
              fileList := sampleFiles; fetchCalls := [] |} in
  exists s', deselectTag sampleTag s = Returned tt s' /\
    tagSelection s' = ["t3"; "t2"] /\ fileSelection s' = ["f2"; "f1"] /\
    fetchCalls s' = [["t3"; "t2"]].
Proof.
  intros s. apply (deselectTag_unselected s sampleTag).
  - intros i Hi. simpl in Hi. destruct Hi as [<-|[<-|[]]].
    + eexists. split; [reflexivity|]. exists "t3". simpl. tauto.
    + eexists. split; [reflexivity|]. exists "t2". simpl. tauto.
  - simpl. intros [H|[H|[]]]; discriminate.
Defined.

(** X8. Selecting a tag and deselecting it again gives back the tag
    selection as a multiset and, in a store whose selected files all carry a
    selected tag, the file selection as it was; the files are fetched
    twice. *)
Theorem selectTag_deselectTag_round_trip (s : Store) (tag : Tag.ClientTag) :
  selectionTagged s ->
  exists s', (selectTag tag ;; deselectTag tag) s = Returned tt s' /\
    Permutation (tagSelection s') (tagSelection s) /\
    fileSelection s' = fileSelection s /\
    List.length (fetchCalls s') = 2 + List.length (fetchCalls s).
Proof.
  intros Htag.
  pose proof (selectionTagged_resolves s Htag) as Hres.
  remember (retagged (Arr.push (Tag.id tag)) s) as s1 eqn:Es1.
  assert (Hsel1 : fileSelection s1 = fileSelection s).
  { subst s1. apply retagged_tagged_selection; [assumption|].
    intros t Ht. unfold Arr.push. apply in_or_app. now left. }
  assert (Hts1 : tagSelection s1 = Arr.push (Tag.id tag) (tagSelection s))
    by now subst s1.
  assert (Hfl1 : fileList s1 = fileList s) by now subst s1.
  assert (Hfc1 : fetchCalls s1 = fetchCalls s ++ [tagSelection s1])
    by now subst s1.
  assert (Hres1 : selectionResolves s1).
  { apply selectionTagged_resolves. subst s1.
    now apply retagged_selectionTagged. }
  exists (retagged (Arr.remove (Tag.id tag)) s1). split.
  - unfold bind at 1. unfold selectTag. rewrite (retag_filter _ s Hres).
    rewrite <- Es1. now apply retag_filter.
  - split; [|split].
    + simpl. rewrite Hts1. apply ArrFacts.remove_push.
    + simpl. rewrite Hsel1, Hts1, Hfl1. apply filter_all. intros i Hi.
      destruct (Htag i Hi) as [g [Hg [t [Ht Hsel]]]].
      unfold carriesSelectedTag, untagged. rewrite Hg, negb_involutive.
      apply isTagged_In. exists t. split; [assumption|].
      apply (Permutation_in _ (Permutation_sym
               (ArrFacts.remove_push (Tag.id tag) (tagSelection s)))).
      exact Hsel.
    + simpl. rewrite Hfc1, !length_app. simpl. lia.
Qed.

Lemma selectTag_deselectTag_round_trip_witness :
  let s := {| fileSelection := ["f2"; "f1"]; tagSelection := ["t1"; "t3"];
              fileList := sampleFiles; fetchCalls := [] |} in
  exists s', (selectTag sampleTag ;; deselectTag sampleTag) s = Returned tt s' /\
    Permutation (tagSelection s') ["t1"; "t3"] /\
    fileSelection s' = ["f2"; "f1"] /\
    List.length (fetchCalls s') = 2.
Proof.
  intros s. apply (selectTag_deselectTag_round_trip s sampleTag).
  intros i Hi. simpl in Hi. destruct Hi as [<-|[<-|[]]].
  - eexists. split; [reflexivity|]. exists "t3". simpl. tauto.
  - eexists. split; [reflexivity|]. exists "t1". simpl. tauto.
Defined.

End UiStoreLaws.

(** ** Slide view: keys, side buttons and preloading *)
Module SlideView.
Import SlideMode.
Local Open Scope Z_scope.

(** [fileList[i]] for an integer [i]; [None] is [undefined]. *)
Definition at_ {A} (l : list A) (i : Z) : option A :=
  if i <? 0 then None else nth_error l (Z.to_nat i).

(** The file the slide view shows. *)
Definition currentFile (s : Stores) : option File.ClientFile :=
  at_ (fileList s) (firstItem s).

(** The preloading effect: the files whose [absolutePath] it reads, the
    next one first.  An [undefined] among them makes the read throw. *)
Definition preload (s : Stores) : list (option File.ClientFile) :=
  (if firstItem s + 1 <? fileCount s
   then [at_ (fileList s) (firstItem s + 1)] else [])
  ++
  (if 0 <=? firstItem s - 1
   then [at_ (fileList s) (firstItem s - 1)] else []).

Definition isDefined {A} (o : option A) : bool :=
  match o with Some _ => true | None => false end.

Section Navigation.

Variable setFirstItem : Z -> Stores -> Stores.

(** [uiStore.disableSlideMode] is, like [setFirstItem], an action of the UI
    store. *)
Variable disableSlideMode : Stores -> Stores.

(** The callbacks handed to the side buttons; [None] is [undefined], and
    the button is then not rendered. *)
Definition prevImage (s : Stores) : option (Stores -> Stores) :=
  if 0 <=? firstItem s - 1 then Some (decrImgIndex setFirstItem) else None.

Definition nextImage (s : Stores) : option (Stores -> Stores) :=
  if firstItem s + 1 <? fileCount s
  then Some (incrImgIndex setFirstItem) else None.

(** [handleUserKeyPress]: the stores after the key, and whether the
    propagation of the event was stopped. *)
Definition handleUserKeyPress (key : string) (s : Stores) : Stores * bool :=
  if String.eqb key "ArrowLeft" then (decrImgIndex setFirstItem s, true)
  else if String.eqb key "ArrowRight" then (incrImgIndex setFirstItem s, true)
  else if String.eqb key "Escape" || String.eqb key "Backspace"
  then (disableSlideMode s, true)
  else (s, false).

Definition pressKeys (keys : list string) (s : Stores) : Stores :=
  fold_left (fun st key => fst (handleUserKeyPress key st)) keys s.

End Navigation.

(** That [firstItem] is an index into the file list. *)
Definition inRange (s : Stores) : Prop :=
  0 <= firstItem s <= fileCount s - 1.

(** What the key handler relies on from [disableSlideMode]: it leaves the
    index and the file list alone. *)
Definition keepsIndex (disableSlideMode : Stores -> Stores) : Prop :=
  forall s, disableSlideMode s = s.

Definition threeFiles : Stores :=
  {| firstItem := 1;
     fileList := [ {| File.id := "a"; File.tags := [] |};
                   {| File.id := "b"; File.tags := [] |};
                   {| File.id := "c"; File.tags := [] |} ] |}.

End SlideView.

Module SlideViewFacts.
Import SlideMode SlideView.
Local Open Scope Z_scope.

Lemma at_defined {A} (l : list A) i :
  isDefined (at_ l i) = true <-> 0 <= i < Z.of_nat (List.length l).
Proof.
  unfold at_. destruct (Z.ltb_spec i 0) as [Hneg|Hpos]; simpl.
  - split; [discriminate | lia].
  - destruct (nth_error l (Z.to_nat i)) as [a|] eqn:E; simpl.
    + assert (H : (Z.to_nat i < List.length l)%nat)
        by (apply nth_error_Some; congruence).
      split; [lia | reflexivity].
    + apply nth_error_None in E. split; [discriminate | lia].
Qed.

Lemma stores_eta s : {| firstItem := firstItem s; fileList := fileList s |} = s.
Proof. destruct s; reflexivity. Qed.

Section NavigationFacts.

Variable setFirstItem : Z -> Stores -> Stores.
Hypothesis setFirstItem_stores : storesIndex setFirstItem.

Lemma decr_run s :
  inRange s ->
  decrImgIndex setFirstItem s =
  {| firstItem := Z.max 0 (firstItem s - 1); fileList := fileList s |}.
Proof.
  unfold inRange. intros H. unfold decrImgIndex. apply setFirstItem_stores. lia.
Qed.

Lemma incr_run s :
  inRange s ->
  incrImgIndex setFirstItem s =
  {| firstItem := Z.min (firstItem s + 1) (fileCount s - 1);
     fileList := fileList s |}.
Proof.
  unfold inRange. intros H. unfold incrImgIndex. apply setFirstItem_stores. lia.
Qed.

Lemma decr_inRange s : inRange s -> inRange (decrImgIndex setFirstItem s).
Proof.
  intros H. rewrite (decr_run s H). unfold inRange, fileCount in *. simpl. lia.
Qed.

Lemma incr_inRange s : inRange s -> inRange (incrImgIndex setFirstItem s).
Proof.
  intros H. rewrite (incr_run s H). unfold inRange, fileCount in *. simpl. lia.
Qed.

Lemma iter_incr n : forall s,
  inRange s ->
  Nat.iter n (incrImgIndex setFirstItem) s =
  {| firstItem := Z.min (firstItem s + Z.of_nat n) (fileCount s - 1);
     fileList := fileList s |}.
Proof.
  induction n as [|n IH]; intros s H.
  - simpl. unfold inRange in H.
    replace (Z.min (firstItem s + 0) (fileCount s - 1)) with (firstItem s) by lia.
    symmetry. apply stores_eta.
  - rewrite Nat.iter_succ, (IH s H).
    rewrite incr_run; unfold inRange, fileCount in *; simpl; [|lia].
    f_equal. lia.
Qed.

Lemma iter_decr n : forall s,
  inRange s ->
  Nat.iter n (decrImgIndex setFirstItem) s =
  {| firstItem := Z.max 0 (firstItem s - Z.of_nat n); fileList := fileList s |}.
Proof.
  induction n as [|n IH]; intros s H.
  - simpl. unfold inRange in H.
    replace (Z.max 0 (firstItem s - 0)) with (firstItem s) by lia.
    symmetry. apply stores_eta.
  - rewrite Nat.iter_succ, (IH s H).
    rewrite decr_run; unfold inRange, fileCount in *; simpl; [|lia].
    f_equal. lia.
Qed.

End NavigationFacts.

(** X9. Stepping forward [n] times from an index into the file list ends
    at [min (firstItem + n) (length - 1)], and stepping back [n] times at
    [max 0 (firstItem - n)]: the steps add up until they reach an end of the
    list and stay there. *)
Theorem slide_steps_saturate
  (setFirstItem : Z -> Stores -> Stores) (s : Stores) (n : nat) :
  storesIndex setFirstItem ->
  inRange s ->
  firstItem (Nat.iter n (incrImgIndex setFirstItem) s)
    = Z.min (firstItem s + Z.of_nat n) (fileCount s - 1) /\
  firstItem (Nat.iter n (decrImgIndex setFirstItem) s)
    = Z.max 0 (firstItem s - Z.of_nat n) /\
  fileList (Nat.iter n (incrImgIndex setFirstItem) s) = fileList s /\
  fileList (Nat.iter n (decrImgIndex setFirstItem) s) = fileList s.
Proof.
  intros Hset Hr.
  rewrite (iter_incr _ Hset n s Hr), (iter_decr _ Hset n s Hr).
  repeat split.
Qed.

Lemma threeFiles_inRange : inRange threeFiles.
Proof. unfold inRange. vm_compute. split; discriminate. Qed.

Lemma slide_steps_saturate_witness :
  firstItem (Nat.iter 5 (incrImgIndex guardedFirstItem) threeFiles) = 2 /\
  firstItem (Nat.iter 5 (decrImgIndex guardedFirstItem) threeFiles) = 0.
Proof.
  destruct (slide_steps_saturate guardedFirstItem threeFiles 5
              SlideModeFacts.guardedFirstItem_storesIndex threeFiles_inRange)
    as [Hi [Hd _]].
  split; [exact Hi | exact Hd].
Defined.

(** X10. A step forward followed by a step back returns to the same stores
    unless the view was at the last image, and a step back followed by a
    step forward does unless it was at the first image. *)
Theorem slide_step_there_and_back
  (setFirstItem : Z -> Stores -> Stores) (s : Stores) :
  storesIndex setFirstItem ->
  inRange s ->
  (firstItem s < fileCount s - 1 ->
     decrImgIndex setFirstItem (incrImgIndex setFirstItem s) = s) /\
  (0 < firstItem s ->
     incrImgIndex setFirstItem (decrImgIndex setFirstItem s) = s) /\
  (firstItem s = fileCount s - 1 -> 0 < firstItem s ->
     firstItem (decrImgIndex setFirstItem (incrImgIndex setFirstItem s))
       = firstItem s - 1).
Proof.
  intros Hset Hr. pose proof Hr as Hr'. unfold inRange in Hr'.
  pose proof (incr_inRange _ Hset s Hr) as Hi.
  pose proof (decr_inRange _ Hset s Hr) as Hd.
  split; [|split].
  - intros Hlt. rewrite (decr_run _ Hset _ Hi), (incr_run _ Hset s Hr). simpl.
    replace (Z.max 0 (Z.min (firstItem s + 1) (fileCount s - 1) - 1))
      with (firstItem s) by lia.
    apply stores_eta.
  - intros Hgt. rewrite (incr_run _ Hset _ Hd), (decr_run _ Hset s Hr).
    unfold fileCount in *. simpl.
    replace (Z.min (Z.max 0 (firstItem s - 1) + 1)
               (Z.of_nat (List.length (fileList s)) - 1))
      with (firstItem s) by lia.
    apply stores_eta.
  - intros Hlast Hgt.
    rewrite (decr_run _ Hset _ Hi), (incr_run _ Hset s Hr). simpl. lia.
Qed.

Lemma slide_step_there_and_back_witness :
  decrImgIndex guardedFirstItem (incrImgIndex guardedFirstItem threeFiles)
    = threeFiles /\
  incrImgIndex guardedFirstItem (decrImgIndex guardedFirstItem threeFiles)
    = threeFiles.
Proof.
  destruct (slide_step_there_and_back guardedFirstItem threeFiles
              SlideModeFacts.guardedFirstItem_storesIndex threeFiles_inRange)
    as [Hf [Hb _]].
  split; [apply Hf | apply Hb]; reflexivity.
Defined.

(** X11. With [firstItem] an index into the file list, the previous-image
    button is offered exactly when [decrImgIndex] would move, and the
    next-image button exactly when [incrImgIndex] would; the file a button
    leads to is one the preloading effect has read. *)
Theorem side_buttons_move
  (setFirstItem : Z -> Stores -> Stores) (s : Stores) :
  storesIndex setFirstItem ->
  inRange s ->
  (prevImage setFirstItem s = None <->
     firstItem (decrImgIndex setFirstItem s) = firstItem s) /\
  (nextImage setFirstItem s = None <->
     firstItem (incrImgIndex setFirstItem s) = firstItem s) /\
  (forall go, prevImage setFirstItem s = Some go ->
     firstItem (go s) = firstItem s - 1 /\
     isDefined (currentFile (go s)) = true /\
     In (currentFile (go s)) (preload s)) /\
  (forall go, nextImage setFirstItem s = Some go ->
     firstItem (go s) = firstItem s + 1 /\
     isDefined (currentFile (go s)) = true /\
     In (currentFile (go s)) (preload s)).
Proof.
  intros Hset Hr. pose proof Hr as Hr'. unfold inRange in Hr'.
  pose proof (decr_run _ Hset s Hr) as Hd.
  pose proof (incr_run _ Hset s Hr) as Hi.
  split; [|split; [|split]].
  - unfold prevImage. rewrite Hd. cbn [firstItem].
    destruct (Z.leb_spec 0 (firstItem s - 1)); split; intros Hx;
      try discriminate; try reflexivity; lia.
  - unfold nextImage. rewrite Hi. cbn [firstItem].
    destruct (Z.ltb_spec (firstItem s + 1) (fileCount s)); split; intros Hx;
      try discriminate; try reflexivity; lia.
  - intros go Hgo. unfold prevImage in Hgo.
    destruct (Z.leb_spec 0 (firstItem s - 1)) as [Hp|Hp]; [|discriminate].
    inversion Hgo; subst go. rewrite Hd. unfold currentFile, preload.
    cbn [firstItem fileList].
    replace (Z.max 0 (firstItem s - 1)) with (firstItem s - 1) by lia.
    split; [reflexivity|].
    split; [apply at_defined; unfold fileCount in *; lia|].
    apply in_or_app. right.
    destruct (Z.leb_spec 0 (firstItem s - 1)); [now left | lia].
  - intros go Hgo. unfold nextImage in Hgo.
    destruct (Z.ltb_spec (firstItem s + 1) (fileCount s)) as [Hn|Hn];
      [|discriminate].
    inversion Hgo; subst go. rewrite Hi. unfold currentFile, preload.
    cbn [firstItem fileList].
    replace (Z.min (firstItem s + 1) (fileCount s - 1))
      with (firstItem s + 1) by lia.
    split; [reflexivity|].
    split; [apply at_defined; unfold fileCount in *; lia|].
    apply in_or_app. left.
    destruct (Z.ltb_spec (firstItem s + 1) (fileCount s)); [now left | lia].
Qed.

Lemma side_buttons_move_witness :
  (exists go, nextImage guardedFirstItem threeFiles = Some go /\
              firstItem (go threeFiles) = 2) /\
  nextImage guardedFirstItem (incrImgIndex guardedFirstItem threeFiles) = None.
Proof.
  split.
  - eexists. split; [reflexivity|].
    destruct (side_buttons_move guardedFirstItem threeFiles
                SlideModeFacts.guardedFirstItem_storesIndex threeFiles_inRange)
      as [_ [_ [_ Hn]]].
    apply (Hn _ eq_refl).
  - reflexivity.
Defined.

(** X12. The slide view and its preloading effect read no [undefined] file
    when [firstItem] is an index into the file list; the preloading effect
    alone reads none exactly when [firstItem] lies between [-1] and the
    length of the list. *)
Theorem preload_defined (s : Stores) :
  (forallb isDefined (preload s) = true <->
     -1 <= firstItem s <= fileCount s) /\
  (inRange s ->
     isDefined (currentFile s) = true /\
     forallb isDefined (preload s) = true).
Proof.
  assert (Hiff : forallb isDefined (preload s) = true <->
                 -1 <= firstItem s <= fileCount s).
  { unfold preload.
    pose proof (at_defined (fileList s) (firstItem s + 1)) as Hn.
    pose proof (at_defined (fileList s) (firstItem s - 1)) as Hp.
    unfold fileCount.
    destruct (Z.ltb_spec (firstItem s + 1)
                (Z.of_nat (List.length (fileList s)))) as [Hlt|Hge];
      destruct (Z.leb_spec 0 (firstItem s - 1)) as [Hle|Hgt]; simpl;
      rewrite ?andb_true_r, ?andb_true_iff.
    - rewrite Hn, Hp. lia.
    - rewrite Hn. lia.
    - rewrite Hp. lia.
    - split; [intros _; lia | reflexivity]. }
  split; [exact Hiff|].
  intros Hr. unfold inRange in Hr. split.
  - apply at_defined. unfold fileCount in Hr. lia.
  - apply Hiff. lia.
Qed.

Lemma preload_defined_witness :
  isDefined (currentFile threeFiles) = true /\
  forallb isDefined (preload threeFiles) = true /\
  forallb isDefined (preload {| firstItem := -2; fileList := fileList threeFiles |})
    = false.
Proof.
  destruct (preload_defined threeFiles) as [_ H].
  destruct (H threeFiles_inRange) as [Hc Hp].
  split; [exact Hc|]. split; [exact Hp | reflexivity].
Defined.

Lemma handleUserKeyPress_inRange setFirstItem disableSlideMode key s :
  storesIndex setFirstItem -> keepsIndex disableSlideMode ->
  inRange s ->
  inRange (fst (handleUserKeyPress setFirstItem disableSlideMode key s)) /\
  fileList (fst (handleUserKeyPress setFirstItem disableSlideMode key s))
    = fileList s.
Proof.
  intros Hset Hdis Hr. unfold handleUserKeyPress.
  destruct (String.eqb key "ArrowLeft").
  - simpl. split; [now apply decr_inRange|]. now rewrite (decr_run _ Hset s Hr).
  - destruct (String.eqb key "ArrowRight").
    + simpl. split; [now apply incr_inRange|]. now rewrite (incr_run _ Hset s Hr).
    + destruct (String.eqb key "Escape" || String.eqb key "Backspace"); simpl.
      * rewrite Hdis. now split.
      * now split.
Qed.

(** X13. Whatever keys are pressed in the slide view, [firstItem] stays an
    index into the file list and the file list stays as it is; a key other
    than the two arrows, Escape and Backspace changes nothing and is left
    to propagate. *)
Theorem keys_keep_index_in_range
  (setFirstItem : Z -> Stores -> Stores) (disableSlideMode : Stores -> Stores)
  (keys : list string) (s : Stores) :
  storesIndex setFirstItem -> keepsIndex disableSlideMode ->
  inRange s ->
  inRange (pressKeys setFirstItem disableSlideMode keys s) /\
  fileList (pressKeys setFirstItem disableSlideMode keys s) = fileList s /\
  (forall key, ~ In key ["ArrowLeft"; "ArrowRight"; "Escape"; "Backspace"] ->
     handleUserKeyPress setFirstItem disableSlideMode key s = (s, false)).
Proof.
  intros Hset Hdis Hr. split; [|split].
  - revert s Hr. unfold pressKeys.
    induction keys as [|k r IH]; intros s Hr; [exact Hr|].
    simpl. apply IH. now apply handleUserKeyPress_inRange.
  - revert s Hr. unfold pressKeys.
    induction keys as [|k r IH]; intros s Hr; [reflexivity|].
    simpl. destruct (handleUserKeyPress_inRange setFirstItem disableSlideMode
                       k s Hset Hdis Hr) as [Hr1 Hfl].
    rewrite (IH _ Hr1). exact Hfl.
  - intros key Hkey. unfold handleUserKeyPress. simpl in Hkey.
    destruct (String.eqb_spec key "ArrowLeft"); [intuition congruence|].
    destruct (String.eqb_spec key "ArrowRight"); [intuition congruence|].
    destruct (String.eqb_spec key "Escape"); [intuition congruence|].
    destruct (String.eqb_spec key "Backspace"); [intuition congruence|].
    reflexivity.
Qed.

Lemma keys_keep_index_in_range_witness :
  firstItem (pressKeys guardedFirstItem (fun s => s)
               ["ArrowRight"; "ArrowRight"; "a"; "ArrowRight"; "ArrowLeft"; "Escape"]
               threeFiles) = 1 /\
  inRange (pressKeys guardedFirstItem (fun s => s)
             ["ArrowRight"; "ArrowRight"; "a"; "ArrowRight"; "ArrowLeft"; "Escape"]
             threeFiles).
Proof.
  split; [reflexivity|].
  apply (keys_keep_index_in_range guardedFirstItem (fun s => s)).
  - exact SlideModeFacts.guardedFirstItem_storesIndex.
  - intros s. reflexivity.
  - exact threeFiles_inRange.
Defined.

End SlideViewFacts.

(** ** The zoomable image over time *)
Module ZoomableImage.
Import Js SlideMode.

(** What happens to a mounted image: a render with new props followed by
    its effects, the [onload] or the [onerror] of an image that an effect
    started loading (for the props of that effect), and the [onError] of
    the rendered [img]. *)
Inductive Event :=
| Rendered (new : Props)
| Loaded (p : Props)
| Failed (e : ErrorEvent).

Definition step (c : Props * State) (ev : Event) : Props * State :=
  match ev with
  | Rendered new => (new, update (fst c) new (snd c))
  | Loaded p => (fst c, onload p (snd c))
  | Failed e => (fst c, onerror e (snd c))
  end.

Definition run (evs : list Event) (c : Props * State) : Props * State :=
  fold_left step evs c.

(** An event that keeps the image source [s]. *)
Definition keepsSrc (s : string) (ev : Event) : Prop :=
  match ev with
  | Rendered new => src new = s
  | Loaded _ | Failed _ => True
  end.

Definition positiveDimensions (p : Props) : Prop :=
  isPositiveFinite (width p) = true /\ isPositiveFinite (height p) = true /\
  isPositiveFinite (imgWidth p) = true /\ isPositiveFinite (imgHeight p) = true.

(** [maxScale={5}]. *)
Definition maxScale : number := ofZ 5.

End ZoomableImage.

Module ZoomableImageFacts.
Import Js SlideMode ZoomableImage.

Lemma sampleProps_positive : positiveDimensions sampleProps.
Proof. repeat split. Qed.

Lemma largeProps_positive : positiveDimensions largeProps.
Proof. repeat split. Qed.

Lemma fitScale_signed p : positiveDimensions p -> signed false (fitScale p).
Proof.
  intros [Hw [Hh [Hiw Hih]]].
  pose proof (JsFacts.div_positive _ _ Hw Hiw) as Hx.
  pose proof (JsFacts.div_positive _ _ Hh Hih) as Hy.
  unfold fitScale, Math_min.
  destruct (SFcompare (div (width p) (imgWidth p))
                      (div (height p) (imgHeight p))) as [[ | | ]|] eqn:E;
    try assumption.
  - destruct (div (width p) (imgWidth p)), (div (height p) (imgHeight p));
      simpl in *; try assumption; subst; reflexivity.
  - apply JsFacts.signed_number in Hx, Hy.
    destruct (JsFacts.compare_defined _ _ Hx Hy) as [c Hc]. congruence.
Qed.

(** [Math.min(0.1, fit)] is one of its two arguments. *)
Lemma minScale_cases_aux p :
  isNaN (fitScale p) = false ->
  minScale p = tenth \/ minScale p = fitScale p.
Proof.
  intros Hfit.
  destruct (JsFacts.compare_defined tenth (fitScale p) eq_refl Hfit) as [c Hc].
  change (minScale p) with (Math_min tenth (fitScale p)).
  unfold Math_min. rewrite Hc. destruct c; auto.
Qed.

(** X14. For positive dimensions the smallest zoom scale is [0.1] when the
    image fits the container at a scale of [0.1] or more, and the fitting
    scale itself when that is below [0.1]; one of the two is the case. *)
Theorem minScale_cases (p : Props) :
  positiveDimensions p ->
  (le tenth (fitScale p) = true -> minScale p = tenth) /\
  (gt tenth (fitScale p) = true -> minScale p = fitScale p) /\
  (le tenth (fitScale p) = true \/ gt tenth (fitScale p) = true).
Proof.
  intros Hpos.
  pose proof (JsFacts.signed_number _ _ (fitScale_signed p Hpos)) as Hfit.
  destruct (JsFacts.compare_defined tenth (fitScale p) eq_refl Hfit) as [c Hc].
  change (minScale p) with (Math_min tenth (fitScale p)).
  unfold le, gt, SFleb, SFltb, Math_min.
  rewrite (JsFacts.compare_antisym _ _ _ Hc), Hc.
  destruct c; simpl; repeat split; try discriminate; try reflexivity; auto.
Qed.

Lemma minScale_cases_witness :
  minScale sampleProps = tenth /\ minScale largeProps = fitScale largeProps.
Proof.
  destruct (minScale_cases sampleProps sampleProps_positive) as [Hs _].
  destruct (minScale_cases largeProps largeProps_positive) as [_ [Hl _]].
  split; [apply Hs | apply Hl]; reflexivity.
Defined.

(** X15. For positive dimensions the zoom range handed to the viewer is
    never empty and never reaches below zero: the smallest scale is a
    number that is not negative and lies strictly below the largest scale,
    [5]. *)
Theorem zoom_range_not_empty (p : Props) (st : State) :
  positiveDimensions p ->
  loadError st = None ->
  exists imageDimension containerDimension mn mx imgSrc,
    render p st = ZoomPan imageDimension containerDimension mn mx imgSrc /\
    mn = minScale p /\ mx = maxScale /\
    signed false mn /\ gt mx mn = true.
Proof.
  intros Hpos Hnone. unfold render. rewrite Hnone.
  exists (Img.dimensions (currentImg st)),
         (createDimension (width p) (height p)),
         (minScale p), maxScale, (Img.src (currentImg st)).
  split; [reflexivity|]. split; [reflexivity|]. split; [reflexivity|].
  pose proof (fitScale_signed p Hpos) as Hsig.
  pose proof (JsFacts.signed_number _ _ Hsig) as Hfit.
  destruct (JsFacts.Math_min_le tenth (fitScale p) eq_refl Hfit)
    as [Hm [Hmt _]].
  change (Math_min tenth (fitScale p)) with (minScale p) in Hm, Hmt.
  split.
  - destruct (minScale_cases_aux p Hfit) as [-> | ->]; [reflexivity | exact Hsig].
  - unfold gt, SFltb.
    destruct (JsFacts.compare_defined (minScale p) maxScale Hm eq_refl)
      as [c Hc].
    rewrite Hc. destruct c; [| reflexivity |].
    + exfalso.
      assert (H5 : le maxScale (minScale p) = true).
      { unfold le, SFleb. now rewrite (JsFacts.compare_antisym _ _ _ Hc). }
      pose proof (JsFacts.le_trans _ _ _ Hm H5 Hmt) as Habs.
      vm_compute in Habs. discriminate.
    + exfalso.
      assert (H5 : le maxScale (minScale p) = true).
      { unfold le, SFleb. now rewrite (JsFacts.compare_antisym _ _ _ Hc). }
      pose proof (JsFacts.le_trans _ _ _ Hm H5 Hmt) as Habs.
      vm_compute in Habs. discriminate.
Qed.

Lemma zoom_range_not_empty_witness :
  exists imageDimension containerDimension mn mx imgSrc,
    render largeProps (mount largeProps)
      = ZoomPan imageDimension containerDimension mn mx imgSrc /\
    mn = minScale largeProps /\ mx = maxScale /\
    signed false mn /\ gt mx mn = true.
Proof.
  apply (zoom_range_not_empty largeProps (mount largeProps) largeProps_positive).
  reflexivity.
Defined.

Lemma onload_showThumbnail p st :
  currentImg (onload p (showThumbnail p st)) = fullImg p.
Proof.
  unfold onload, showThumbnail, setCurrentImg, onloadUpdater, isThumbnail,
    initialImg, fullImg, thumbnailOrSrc. simpl.
  destruct (thumbnailSrc p) as [[|c t]|]; simpl.
  - destruct (String.eqb (src p) ""); reflexivity.
  - now rewrite Ascii.eqb_refl, String.eqb_refl.
  - reflexivity.
Qed.

(** X16. Once the image that an effect started loading has loaded, the
    full-resolution source is what is shown, with the dimensions of the
    props: on mount and after a render with another source alike, and
    whether or not there is a thumbnail. *)
Theorem first_load_shows_full_resolution (p : Props) :
  currentImg (onload p (mount p)) = fullImg p /\
  (forall old st, src p <> src old ->
     currentImg (onload p (update old p st)) = fullImg p /\
     loadError (onload p (update old p st)) = None).
Proof.
  split.
  - unfold mount. apply onload_showThumbnail.
  - intros old st Hsrc. unfold update.
    destruct (String.eqb_spec (src old) (src p)) as [E|N]; [congruence|].
    simpl andb. cbv iota. split; [apply onload_showThumbnail | reflexivity].
Qed.

Lemma first_load_shows_full_resolution_witness :
  Img.src (currentImg (onload largeProps (update sampleProps largeProps
                                            (mount sampleProps))))
  = "/img/b.jpg".
Proof.
  destruct (first_load_shows_full_resolution largeProps) as [_ H].
  destruct (H sampleProps (mount sampleProps)) as [Hc _]; [discriminate|].
  rewrite Hc. reflexivity.
Defined.

Lemma step_keeps_error s c ev :
  src (fst c) = s -> keepsSrc s ev ->
  src (fst (step c ev)) = s /\
  (loadError (snd c) <> None -> loadError (snd (step c ev)) <> None).
Proof.
  intros Hs Hk. destruct ev as [new|q|e]; simpl in *.
  - split; [exact Hk|]. unfold update.
    rewrite Hs, <- Hk, String.eqb_refl. simpl.
    destruct (sameThumbnail (thumbnailSrc (fst c)) (thumbnailSrc new)); auto.
  - split; [exact Hs | auto].
  - split; [exact Hs | discriminate].
Qed.

(** X17. A recorded load error stays until the source changes: after any
    renders that keep [src], image loads and further errors, an error is
    still stored and the placeholder is still what is rendered. *)
Theorem load_error_stays_until_src_changes
  (evs : list Event) (p : Props) (st : State) :
  loadError st <> None ->
  Forall (keepsSrc (src p)) evs ->
  src (fst (run evs (p, st))) = src p /\
  loadError (snd (run evs (p, st))) <> None /\
  isImageError (render (fst (run evs (p, st))) (snd (run evs (p, st)))) = true.
Proof.
  intros Herr Hall.
  assert (H : src (fst (run evs (p, st))) = src p /\
              loadError (snd (run evs (p, st))) <> None).
  { unfold run. remember (p, st) as c eqn:Ec.
    assert (Hs : src (fst c) = src p) by now subst c.
    assert (He : loadError (snd c) <> None) by now subst c.
    clear Ec Herr. revert c Hs He.
    induction Hall as [|ev r Hev _ IH]; intros c Hs He; [now split|].
    simpl. destruct (step_keeps_error (src p) c ev Hs Hev) as [Hs' He'].
    apply IH; auto. }
  destruct H as [Hs He]. split; [exact Hs|]. split; [exact He|].
  unfold render. destruct (loadError (snd (run evs (p, st)))); [reflexivity|].
  congruence.
Qed.

Lemma load_error_stays_until_src_changes_witness :
  let failed := onerror (ErrorEventOn "/img/a.jpg") (mount sampleProps) in
  let resized := {| src := "/img/a.jpg"; thumbnailSrc := Some "/thumb/a.jpg";
                    width := ofZ 1024; height := ofZ 768;
                    imgWidth := ofZ 4000; imgHeight := ofZ 3000 |} in
  isImageError
    (render (fst (run [Rendered resized; Loaded sampleProps] (sampleProps, failed)))
            (snd (run [Rendered resized; Loaded sampleProps] (sampleProps, failed))))
  = true /\
  isImageError
    (render largeProps (snd (run [Rendered largeProps] (sampleProps, failed))))
  = false.
Proof.
  intros failed resized. split; [|reflexivity].
  apply (load_error_stays_until_src_changes
           [Rendered resized; Loaded sampleProps] sampleProps failed).
  - discriminate.
  - repeat constructor.
Defined.

End ZoomableImageFacts.

(** ** Toolbar: the buttons built on [ToolbarButton] *)
Module ToolbarVariants.
Import Toolbar.
Local Open Scope Z_scope.

Section Variants.

Variable World : Type.

(** [IBaseButton], which the three interfaces extend. *)
Record IBaseButton := {
  id : option string;
  text : string;
  icon : string;
  onClick : option (Handler World);
  showLabel : option ShowLabel;
  tooltip : option string;
  tabIndex : option Z
}.

Record IToolbarToggleButton := {
  toggleBase : IBaseButton;
  toggleControls : option string;
  togglePressed : bool
}.

Record IToolbarSegmentButton := {
  segmentBase : IBaseButton;
  segmentChecked : bool
}.

Inductive MenuRole := roleMenu | roleGroup.

Record IToolbarMenuButton := {
  menuBase : IBaseButton;
  menuControls : string;
  menuDisabled : option bool;
  menuRole : option MenuRole
}.

Definition ToolbarToggleButton (props : IToolbarToggleButton)
  : ButtonElement World :=
  let b := toggleBase props in
  ToolbarButton
    {| Toolbar.id := id b; Toolbar.text := text b; Toolbar.icon := icon b;
       Toolbar.onClick := onClick b; Toolbar.showLabel := showLabel b;
       Toolbar.tooltip := tooltip b; Toolbar.tabIndex := tabIndex b;
       Toolbar.role := None; Toolbar.disabled := None;
       Toolbar.pressed := Some (togglePressed props);
       Toolbar.checked := None; Toolbar.expanded := None;
       Toolbar.controls := toggleControls props; Toolbar.haspopup := None |}.

Definition ToolbarSegmentButton (props : IToolbarSegmentButton)
  : ButtonElement World :=
  let b := segmentBase props in
  ToolbarButton
    {| Toolbar.id := id b; Toolbar.text := text b; Toolbar.icon := icon b;
       Toolbar.onClick := onClick b; Toolbar.showLabel := showLabel b;
       Toolbar.tooltip := tooltip b; Toolbar.tabIndex := tabIndex b;
       Toolbar.role := Some "radio"; Toolbar.disabled := None;
       Toolbar.pressed := None;
       Toolbar.checked := Some (segmentChecked props);
       Toolbar.expanded := None;
       Toolbar.controls := None; Toolbar.haspopup := None |}.

(** The flyout of a menu button: whether it is open, what its [onClose] and
    [onCancel] make of the [isOpen] state, and its target button, whose
    handler acts on that state.  The handler is built at render time from
    the [isOpen] of that render; the [onClick] and [role] props are not
    used. *)
Record FlyoutElement := {
  open : bool;
  onClose : bool -> bool;
  onCancel : bool -> bool;
  target : ButtonElement bool
}.

Definition ToolbarMenuButton (props : IToolbarMenuButton) (isOpen : bool)
  : FlyoutElement :=
  let b := menuBase props in
  {| open := isOpen;
     onClose := fun _ => false;
     onCancel := fun _ => false;
     target :=
       ToolbarButton
         {| Toolbar.id := id b; Toolbar.text := text b; Toolbar.icon := icon b;
            Toolbar.onClick := Some (fun _ _ => negb isOpen);
            Toolbar.showLabel := showLabel b;
            Toolbar.tooltip := tooltip b; Toolbar.tabIndex := tabIndex b;
            Toolbar.role := None; Toolbar.disabled := menuDisabled props;
            Toolbar.pressed := None; Toolbar.checked := None;
            Toolbar.expanded := Some isOpen;
            Toolbar.controls := Some (menuControls props);
            Toolbar.haspopup := Some menu |} |}.

End Variants.

Arguments id {World}.
Arguments text {World}.
Arguments icon {World}.
Arguments onClick {World}.
Arguments showLabel {World}.
Arguments tooltip {World}.
Arguments tabIndex {World}.
Arguments toggleBase {World}.
Arguments toggleControls {World}.
Arguments togglePressed {World}.
Arguments segmentBase {World}.
Arguments segmentChecked {World}.
Arguments menuBase {World}.
Arguments menuControls {World}.
Arguments menuDisabled {World}.
Arguments menuRole {World}.
Arguments ToolbarToggleButton {World}.
Arguments ToolbarSegmentButton {World}.
Arguments ToolbarMenuButton {World}.

Definition sampleBase : IBaseButton nat :=
  {| id := Some "sort"; text := "Sort"; icon := "filter";
     onClick := Some (fun _ n => S n); showLabel := None;
     tooltip := None; tabIndex := None |}.

Definition sampleMenu (disabled : option bool) : IToolbarMenuButton nat :=
  {| menuBase := sampleBase; menuControls := "sort-menu";
     menuDisabled := disabled; menuRole := None |}.

Definition aClick : MouseEvent := {| ctrlKey := false; shiftKey := false |}.

(** X18. A menu button that is disabled never opens its flyout: activating
    its target leaves [isOpen] as it is.  One that is not disabled sets
    [isOpen] to the opposite of what it was at the render, so a click and a
    render, twice over, closes it again.  The flyout is open exactly when
    [isOpen] is, the target reports it as [aria-expanded], and closing or
    cancelling the flyout makes [isOpen] false. *)
Theorem ToolbarMenuButton_toggles {World : Type}
  (props : IToolbarMenuButton World) (isOpen : bool) (e : MouseEvent) :
  let el := ToolbarMenuButton props isOpen in
  open el = isOpen /\
  aria_expanded bool (target el) = Some isOpen /\
  aria_haspopup bool (target el) = Some menu /\
  (menuDisabled props = Some true ->
     forall w, click (target el) e w = w) /\
  (menuDisabled props <> Some true ->
     (forall w, click (target el) e w = negb isOpen) /\
     let opened := click (target el) e isOpen in
     click (target (ToolbarMenuButton props opened)) e opened = isOpen) /\
  (forall w, onClose el w = false) /\ (forall w, onCancel el w = false).
Proof.
  intros el. subst el. unfold click. simpl.
  split; [reflexivity|]. split; [reflexivity|]. split; [reflexivity|].
  split; [|split; [|split; reflexivity]].
  - intros Hd w. now rewrite Hd.
  - intros Hd.
    assert (Ht : truthy (menuDisabled props) = false)
      by (destruct (menuDisabled props) as [[|]|]; simpl; congruence).
    rewrite Ht. split; [reflexivity | apply negb_involutive].
Qed.

Lemma ToolbarMenuButton_toggles_witness :
  click (target (ToolbarMenuButton (sampleMenu (Some true)) false)) aClick false
    = false /\
  click (target (ToolbarMenuButton (sampleMenu None) false)) aClick false
    = true.
Proof.
  split.
  - destruct (ToolbarMenuButton_toggles (sampleMenu (Some true)) false aClick)
      as [_ [_ [_ [Hd _]]]].
    apply Hd. reflexivity.
  - destruct (ToolbarMenuButton_toggles (sampleMenu None) false aClick)
      as [_ [_ [_ [_ [He _]]]]].
    destruct He as [Hc _]; [discriminate|]. apply Hc.
Defined.

(** X19. Toggle and segment buttons cannot be disabled: the handler
    supplied is the handler of the button element, so a click runs it, and
    [aria-disabled] is absent.  A toggle button reports [pressed] as
    [aria-pressed]; a segment button has the role [radio] and reports
    [checked] as [aria-checked]; both get [tabIndex] [-1] when none is
    given. *)
Theorem toggle_and_segment_buttons_enabled {World : Type}
  (t : IToolbarToggleButton World) (g : IToolbarSegmentButton World) :
  (el_onClick (ToolbarToggleButton t) = onClick (toggleBase t) /\
   aria_disabled (ToolbarToggleButton t) = None /\
   aria_pressed World (ToolbarToggleButton t) = Some (togglePressed t) /\
   (forall h e w, onClick (toggleBase t) = Some h ->
      click (ToolbarToggleButton t) e w = h e w) /\
   (tabIndex (toggleBase t) = None ->
      el_tabIndex (ToolbarToggleButton t) = -1)) /\
  (el_onClick (ToolbarSegmentButton g) = onClick (segmentBase g) /\
   aria_disabled (ToolbarSegmentButton g) = None /\
   el_role World (ToolbarSegmentButton g) = Some "radio" /\
   aria_checked World (ToolbarSegmentButton g) = Some (segmentChecked g) /\
   (forall h e w, onClick (segmentBase g) = Some h ->
      click (ToolbarSegmentButton g) e w = h e w) /\
   (tabIndex (segmentBase g) = None ->
      el_tabIndex (ToolbarSegmentButton g) = -1)).
Proof.
  unfold click. simpl. repeat split; try reflexivity.
  - intros h e w Hh. now rewrite Hh.
  - intros Ht. now rewrite Ht.
  - intros h e w Hh. now rewrite Hh.
  - intros Ht. now rewrite Ht.
Qed.

Lemma toggle_and_segment_buttons_enabled_witness :
  click (ToolbarToggleButton
           {| toggleBase := sampleBase; toggleControls := None;
              togglePressed := true |}) aClick 0%nat = 1%nat /\
  el_tabIndex (ToolbarSegmentButton
                 {| segmentBase := sampleBase; segmentChecked := false |}) = -1.
Proof.
  destruct (toggle_and_segment_buttons_enabled
              {| toggleBase := sampleBase; toggleControls := None;
                 togglePressed := true |}
              {| segmentBase := sampleBase; segmentChecked := false |})
    as [[_ [_ [_ [Hc _]]]] [_ [_ [_ [_ [_ Ht]]]]]].
  split; [now apply (Hc (fun _ n => S n)) | now apply Ht].
Defined.

End ToolbarVariants.

(** ** Gallery item: the drop-target marker and the thumbnail over time *)
Module GalleryEvents.
Import File GalleryItem.

(** An event as a handler leaves it: the event itself and whether
    [preventDefault] and [stopPropagation] have been called on it. *)
Record Dispatched := {
  event : DragEvent;
  defaultPrevented : bool;
  propagationStopped : bool
}.

Definition fresh (e : DragEvent) : Dispatched :=
  {| event := e; defaultPrevented := false; propagationStopped := false |}.

Definition marked (e : DragEvent) (effect mark : string) : Dispatched :=
  {| event := {| dataTransfer :=
                   {| types := types (dataTransfer e);
                      getData := getData (dataTransfer e);
                      dropEffect := effect |};
                 target := Some mark |};
     defaultPrevented := true;
     propagationStopped := true |}.

Inductive Kind := Over | Leave | Dropped.

Section Handlers.

Variable DnDType : string.
Variable getTagContextItems : string -> list Tag.ClientTag.
Variable addTag : ID -> ClientFile -> ClientFile.

Definition handleDragOver (e : DragEvent) : Dispatched :=
  if Arr.includes (types (dataTransfer e)) DnDType
  then marked e "link" "true" else fresh e.

Definition handleDragLeave (e : DragEvent) : Dispatched :=
  if Arr.includes (types (dataTransfer e)) DnDType
  then marked e "none" "false" else fresh e.

(** A drag event of some kind reaching an item: the event carries the data
    transfer of the drag, its current target is the item, whose marker [m]
    stays on the item for the next event. *)
Definition deliver (st : option string * ClientFile)
  (ev : Kind * DataTransfer) : option string * ClientFile :=
  let e := {| dataTransfer := snd ev; target := fst st |} in
  match fst ev with
  | Over => (target (event (handleDragOver e)), snd st)
  | Leave => (target (event (handleDragLeave e)), snd st)
  | Dropped =>
      let r := handleDrop DnDType getTagContextItems addTag e (snd st) in
      (target (fst r), snd r)
  end.

Definition isTagDrag (ev : Kind * DataTransfer) : bool :=
  Arr.includes (types (snd ev)) DnDType.

(** The marker after a series of events, read off the last of them that
    carries a tag. *)
Definition markerAfter (evs : list (Kind * DataTransfer)) (m0 : option string)
  : option string :=
  match find isTagDrag (rev evs) with
  | Some (Over, _) => Some "true"
  | Some (Leave, _) | Some (Dropped, _) => Some "false"
  | None => m0
  end.

End Handlers.

(** *** The thumbnail *)

Definition initialThumbnail : ThumbnailState :=
  {| isThumbnailReady := true; isThumbnailGenerating := false |}.

Inductive ThumbEvent :=
| EnsureDone (exists_ : bool)
| PathChanged (imagePath : string)
| ImageErrored.

Definition thumbStep (isBroken : bool) (st : ThumbnailState) (ev : ThumbEvent)
  : ThumbnailState :=
  match ev with
  | EnsureDone exists_ => ensureThumbnailDone exists_ isBroken st
  | PathChanged imagePath => thumbnailReadyEffect imagePath st
  | ImageErrored => handleImageError st
  end.

Definition thumbRun (isBroken : bool) (evs : list ThumbEvent)
  (st : ThumbnailState) : ThumbnailState :=
  fold_left (thumbStep isBroken) evs st.

Definition versioned (imagePath : string) : Prop :=
  exists prefix, imagePath = (prefix ++ "?v=1")%string.

Definition unversionedEvent (ev : ThumbEvent) : Prop :=
  match ev with
  | PathChanged imagePath => ~ versioned imagePath
  | EnsureDone _ | ImageErrored => True
  end.

(** *** What a broken file shows *)

Definition truthy (b : option bool) : bool :=
  match b with Some true => true | _ => false end.

Inductive Decoration :=
| FileRecovery
| Tags (withDetails : bool).

(** [ThumbnailDecoration], and whether the item renders the broken-link
    overlay over its thumbnail. *)
Definition ThumbnailDecoration (showDetails : option bool) (isBroken : bool)
  : Decoration :=
  if isBroken && truthy showDetails then FileRecovery
  else Tags (truthy showDetails).

Definition brokenOverlay (showDetails : option bool) (isBroken : bool) : bool :=
  isBroken && negb (truthy showDetails).

End GalleryEvents.

Module GalleryEventsFacts.
Import File GalleryItem GalleryEvents.

(** X20. The drop-target marker of an item is ["true"] exactly from a
    drag-over that carries a tag until the next leave or drop that carries
    one: after any series of drag events the marker is the one set by the
    last event carrying the tag type, and is the initial one if there was
    none.  Events without the tag type never touch it. *)
Theorem marker_follows_last_tag_drag
  (DnDType : string) (getTagContextItems : string -> list Tag.ClientTag)
  (addTag : ID -> ClientFile -> ClientFile)
  (evs : list (Kind * DataTransfer)) (m0 : option string) (file : ClientFile) :
  fst (fold_left (deliver DnDType getTagContextItems addTag) evs (m0, file))
  = markerAfter DnDType evs m0.
Proof.
  induction evs as [|ev evs IH] using rev_ind; [reflexivity|].
  rewrite fold_left_app. simpl fold_left.
  unfold markerAfter. rewrite rev_app_distr. simpl rev. simpl find.
  unfold markerAfter in IH.
  destruct (fold_left (deliver DnDType getTagContextItems addTag) evs (m0, file))
    as [m f] eqn:E.
  simpl in IH. subst m.
  destruct ev as [k dt].
  unfold deliver, isTagDrag, handleDragOver, handleDragLeave, handleDrop.
  cbn [fst snd dataTransfer].
  destruct (Arr.includes (types dt) DnDType); destruct k; reflexivity.
Qed.

(** X21. A broken file never shows the loading placeholder: whatever
    happens to its thumbnail after the first render, the item renders the
    image or the missing-image fallback. *)
Theorem broken_file_never_loading
  (evs : list ThumbEvent) (imagePath : string) :
  isThumbnailGenerating (thumbRun true evs initialThumbnail) = false /\
  renderThumbnail imagePath (thumbRun true evs initialThumbnail) <> DonutLoading.
Proof.
  assert (H : forall st, isThumbnailGenerating st = false ->
                isThumbnailGenerating (thumbRun true evs st) = false).
  { unfold thumbRun. induction evs as [|ev r IH]; intros st Hst; [exact Hst|].
    simpl. apply IH. destruct ev as [ex|p|]; simpl.
    - unfold ensureThumbnailDone. destruct ex; simpl; assumption.
    - unfold thumbnailReadyEffect. destruct (endsWith p "?v=1"); [reflexivity|assumption].
    - exact Hst. }
  specialize (H initialThumbnail eq_refl). split; [exact H|].
  unfold renderThumbnail. rewrite H.
  destruct (isThumbnailReady (thumbRun true evs initialThumbnail)); discriminate.
Qed.

Lemma unversioned_endsWith imagePath :
  ~ versioned imagePath -> endsWith imagePath "?v=1" = false.
Proof.
  intros H. destruct (endsWith imagePath "?v=1") eqn:E; [|reflexivity].
  exfalso. apply H. now apply GalleryItemFacts.endsWith_spec.
Qed.

(** X22. Once the thumbnail is not ready, only an image path ending with
    [?v=1] makes it ready again: through any series of events without such
    a path the item keeps rendering the placeholder or the fallback, never
    the image. *)
Theorem ready_only_by_versioned_path
  (isBroken : bool) (evs : list ThumbEvent) (st : ThumbnailState)
  (imagePath : string) :
  isThumbnailReady st = false ->
  Forall unversionedEvent evs ->
  isThumbnailReady (thumbRun isBroken evs st) = false /\
  renderThumbnail imagePath (thumbRun isBroken evs st) <> img imagePath.
Proof.
  intros Hst Hall.
  assert (H : isThumbnailReady (thumbRun isBroken evs st) = false).
  { unfold thumbRun. revert st Hst.
    induction Hall as [|ev r Hev _ IH]; intros st Hst; [exact Hst|].
    simpl. apply IH. destruct ev as [ex|p|]; simpl.
    - unfold ensureThumbnailDone. destruct ex; simpl; [assumption|reflexivity].
    - unfold thumbnailReadyEffect. simpl in Hev.
      now rewrite (unversioned_endsWith p Hev).
    - reflexivity. }
  split; [exact H|]. unfold renderThumbnail. rewrite H.
  destruct (isThumbnailGenerating (thumbRun isBroken evs st)); discriminate.
Qed.

Lemma ready_only_by_versioned_path_witness :
  renderThumbnail "/thumbs/a.jpg"
    (thumbRun false [PathChanged "/thumbs/a.jpg"; EnsureDone true; ImageErrored]
       (handleImageError initialThumbnail))
  <> img "/thumbs/a.jpg".
Proof.
  apply (ready_only_by_versioned_path false
           [PathChanged "/thumbs/a.jpg"; EnsureDone true; ImageErrored]
           (handleImageError initialThumbnail) "/thumbs/a.jpg").
  - reflexivity.
  - repeat constructor. simpl. intros H.
    apply GalleryItemFacts.endsWith_spec in H. vm_compute in H. discriminate.
Defined.

(** X23. When [ensureThumbnail] reports that there is no thumbnail, a file
    that is not broken shows the loading placeholder, whatever was shown
    before, and keeps showing it until the image path ends with [?v=1],
    which brings the image; a broken file shows the missing-image fallback
    from its first render on.  A report that the thumbnail exists changes
    nothing. *)
Theorem thumbnail_generation_flow (st : ThumbnailState) (imagePath prefix : string) :
  renderThumbnail imagePath (ensureThumbnailDone false false st) = DonutLoading /\
  (~ versioned imagePath ->
     renderThumbnail imagePath
       (thumbnailReadyEffect imagePath (ensureThumbnailDone false false st))
     = DonutLoading) /\
  renderThumbnail (prefix ++ "?v=1")
    (thumbnailReadyEffect (prefix ++ "?v=1") (ensureThumbnailDone false false st))
  = img (prefix ++ "?v=1") /\
  renderThumbnail imagePath (ensureThumbnailDone false true initialThumbnail)
  = MissingImageFallback /\
  (forall isBroken, ensureThumbnailDone true isBroken st = st).
Proof.
  split; [reflexivity|]. split; [|split; [|split]].
  - intros H. unfold thumbnailReadyEffect.
    now rewrite (unversioned_endsWith _ H).
  - unfold thumbnailReadyEffect.
    assert (E : endsWith (prefix ++ "?v=1") "?v=1" = true)
      by (apply GalleryItemFacts.endsWith_spec; now exists prefix).
    now rewrite E.
  - reflexivity.
  - reflexivity.
Qed.

Lemma thumbnail_generation_flow_witness :
  renderThumbnail "/thumbs/a.jpg"
    (thumbnailReadyEffect "/thumbs/a.jpg"
       (ensureThumbnailDone false false initialThumbnail)) = DonutLoading.
Proof.
  destruct (thumbnail_generation_flow initialThumbnail "/thumbs/a.jpg" "")
    as [_ [H _]].
  apply H. intros Hv. apply GalleryItemFacts.endsWith_spec in Hv.
  vm_compute in Hv. discriminate.
Defined.

(** X24. A broken file offers exactly one way to its recovery: the recovery
    panel in place of the details when details are shown, the broken-link
    overlay on the thumbnail when they are not.  A file that is not broken
    gets neither. *)
Theorem broken_file_one_recovery (showDetails : option bool) (isBroken : bool) :
  (isBroken = true ->
     (ThumbnailDecoration showDetails isBroken = FileRecovery <->
      brokenOverlay showDetails isBroken = false) /\
     (ThumbnailDecoration showDetails isBroken = FileRecovery <->
      showDetails = Some true)) /\
  (isBroken = false ->
     ThumbnailDecoration showDetails isBroken <> FileRecovery /\
     brokenOverlay showDetails isBroken = false).
Proof.
  unfold ThumbnailDecoration, brokenOverlay.
  destruct isBroken, showDetails as [[|]|]; simpl; split; intros H;
    try discriminate; repeat split; intros; try discriminate; try reflexivity;
    congruence.
Qed.

Lemma broken_file_one_recovery_witness :
  ThumbnailDecoration None true = Tags false /\ brokenOverlay None true = true /\
  ThumbnailDecoration (Some true) true = FileRecovery /\
  brokenOverlay (Some true) true = false.
Proof.
  destruct (broken_file_one_recovery (Some true) true) as [H _].
  destruct (H eq_refl) as [_ [_ Hr]].
  split; [reflexivity|]. split; [reflexivity|].
  split; [now apply Hr | reflexivity].
Defined.

End GalleryEventsFacts.
